(** * Citation verification in gpt_scientist

    A shallow embedding of [Scientist.check_citations] and
    [Scientist._verified_field_name] (src/gpt_scientist/gpt_scientist.py,
    lines 555-591), of the pandas and [str] operations they call, and of the
    two helpers they import from [gpt_scientist.citation_checker]. *)

From Stdlib Require Import String Ascii.
From stdpp Require Import gmap list pretty.

Local Open Scope Z_scope.
Local Open Scope nat_scope.

(** ** Python strings *)

(** A Python [str] is a sequence of Unicode code points. *)
Definition char := N.
Definition text := list char.

(** ASCII literals. *)
Definition str (s : string) : text :=
  List.map N_of_ascii (list_ascii_of_string s).

(** The code point of the straight double quote. *)
Definition dquote : char := 34%N.
(** The code point of the line feed. *)
Definition newline : char := 10%N.

(** [s.startswith(p)] *)
Fixpoint startswith (p s : text) : bool :=
  match p, s with
  | [], _ => true
  | _ :: _, [] => false
  | a :: p', b :: s' => (a =? b)%N && startswith p' s'
  end.

(** The scan of [str.replace] for a non-empty [old]: left to right, every
    occurrence that does not overlap an earlier one is replaced. [skip] counts
    the characters of a just-replaced occurrence that are still to be passed
    over. *)
Fixpoint replace_from (old new : text) (skip : nat) (s : text) : text :=
  match s with
  | [] => []
  | c :: s' =>
      match skip with
      | S k => replace_from old new k s'
      | O =>
          if startswith old s
          then new ++ replace_from old new (length old - 1) s'
          else c :: replace_from old new 0 s'
      end
  end.

(** [s.replace(old, new)]. With an empty [old], Python puts [new] before every
    character and at the end. *)
Definition replace (old new s : text) : text :=
  match old with
  | [] => new ++ flat_map (fun c => c :: new) s
  | _ :: _ => replace_from old new 0 s
  end.

(** The number of positions of [s] at which [old] occurs. *)
Fixpoint occurrences (old s : text) : nat :=
  (if startswith old s then 1 else 0) +
  match s with
  | [] => 0
  | _ :: s' => occurrences old s'
  end.

(** ** Python values and exceptions *)

(** What a dataframe cell holds: a [str], the missing value [nan] (a float),
    or an integer. *)
Inductive value :=
| VStr (s : text)
| VNaN
| VInt (z : Z).

Inductive exn := KeyError | TypeError | AttributeError | OverflowError.

Inductive result (A : Type) :=
| Ok (a : A)
| Raise (e : exn).
Arguments Ok {A} a.
Arguments Raise {A} e.

#[global] Instance value_eq_dec : EqDecision value.
Proof. solve_decision. Defined.
#[global] Instance exn_eq_dec : EqDecision exn.
Proof. solve_decision. Defined.
#[global] Instance result_eq_dec `{EqDecision A} : EqDecision (result A).
Proof. solve_decision. Defined.

(** [sep.join(vals)]: every item must be a [str]. *)
Fixpoint str_join (sep : text) (vals : list value) : result text :=
  match vals with
  | [] => Ok []
  | VStr s :: rest =>
      match rest with
      | [] => Ok s
      | _ :: _ =>
          match str_join sep rest with
          | Ok t => Ok (s ++ sep ++ t)
          | Raise e => Raise e
          end
      end
  | _ :: _ => Raise TypeError
  end.

(** [v.replace(old, new)]: only a [str] has the method. *)
Definition method_replace (v : value) (old new : text) : result value :=
  match v with
  | VStr s => Ok (VStr (replace old new s))
  | _ => Raise AttributeError
  end.

(** ** pandas dataframes *)

(** A dataframe with unique row labels and unique column labels: the labels in
    order, and the cells. A cell that the map does not hold is [nan]. *)
Record DataFrame := {
  df_index : list Z;
  df_columns : list text;
  df_cells : gmap (Z * text) value
}.

(** [data.loc[row, col]] *)
Definition loc (df : DataFrame) (row : Z) (col : text) : result value :=
  if decide (row ∈ df_index df) then
    if decide (col ∈ df_columns df) then
      Ok (default VNaN (df_cells df !! (row, col)))
    else Raise KeyError
  else Raise KeyError.

(** [data.loc[row, cols]] for a list of column labels, as the list of the
    values of the resulting Series. *)
Fixpoint loc_list (df : DataFrame) (row : Z) (cols : list text)
  : result (list value) :=
  match cols with
  | [] => if decide (row ∈ df_index df) then Ok [] else Raise KeyError
  | c :: cols' =>
      match loc df row c with
      | Ok v =>
          match loc_list df row cols' with
          | Ok vs => Ok (v :: vs)
          | Raise e => Raise e
          end
      | Raise e => Raise e
      end
  end.

(** [data.loc[row, col] = v]; a label that is missing is appended. *)
Definition loc_set (df : DataFrame) (row : Z) (col : text) (v : value)
  : DataFrame :=
  {| df_index :=
       if decide (row ∈ df_index df) then df_index df
       else df_index df ++ [row];
     df_columns :=
       if decide (col ∈ df_columns df) then df_columns df
       else df_columns df ++ [col];
     df_cells := <[(row, col) := v]> (df_cells df) |}.

(** [data[col] = v] for a scalar [v]: the whole column is set. *)
Definition setitem (df : DataFrame) (col : text) (v : value) : DataFrame :=
  {| df_index := df_index df;
     df_columns :=
       if decide (col ∈ df_columns df) then df_columns df
       else df_columns df ++ [col];
     df_cells :=
       foldr (fun r m => <[(r, col) := v]> m) (df_cells df) (df_index df) |}.

(** ** State and exceptions *)

(** [check_citations] mutates the caller's dataframe and writes to the
    logger; an exception leaves both as they are at the raise. *)
Record state := {
  data : DataFrame;
  log : list text
}.

Definition M (A : Type) : Type := state -> result A * state.

#[global] Instance M_ret : MRet M := fun A a st => (Ok a, st).
#[global] Instance M_bind : MBind M := fun A B f m st =>
  match m st with
  | (Ok a, st') => f a st'
  | (Raise e, st') => (Raise e, st')
  end.

Definition lift {A} (r : result A) : M A := fun st => (r, st).
Definition get_data : M DataFrame := fun st => (Ok (data st), st).
Definition put_data (df : DataFrame) : M unit :=
  fun st => (Ok tt, {| data := df; log := log st |}).
(** [self.logger.info(msg)] *)
Definition info (msg : text) : M unit :=
  fun st => (Ok tt, {| data := data st; log := log st ++ [msg] |}).

(** [for x in xs: body] *)
Fixpoint for_each {A} (xs : list A) (body : A -> M unit) : M unit :=
  match xs with
  | [] => mret tt
  | x :: xs' => body x ≫= fun _ => for_each xs' body
  end.

(** [for x in xs: acc = body(acc, x)] *)
Fixpoint for_fold {A B} (xs : list A) (acc : B) (body : B -> A -> M B) : M B :=
  match xs with
  | [] => mret acc
  | x :: xs' => body acc x ≫= fun acc' => for_fold xs' acc' body
  end.

(** ** The Scientist object *)

(** Of the configuration of [Scientist.__init__] (lines 40-61) the citation
    check reads the budget of the fuzzy search and the logger; the logger is
    the [log] of the state. The budget is a natural number: the matcher's
    contract is stated for a budget that is not negative. *)
Record Scientist := {
  max_fuzzy_distance : nat
}.

(** [Scientist.__init__]: the default budget. *)
Definition default_scientist : Scientist := {| max_fuzzy_distance := 30 |}.

(** [f'{output_field}_verified'] *)
Definition _verified_field_name (output_field : text) : text :=
  output_field ++ str "_verified".

(** The marker of line 588. *)
Definition NOT_FOUND : text := str "CITATION NOT FOUND".

(** The two helpers that gpt_scientist.py imports from
    [gpt_scientist.citation_checker]. The extractor receives whatever the
    output cell holds; the matcher receives two strings and the budget, and
    answers [None] or a pair. *)
Class CitationChecker := {
  extract_citations : value -> result (list text);
  fuzzy_find_in_text : text -> text -> nat -> option (text * nat)
}.

Section CheckCitations.

Context `{CitationChecker}.
Variable self : Scientist.

(** The body of the loop over the citations (lines 577-589). *)
Definition check_citation (input_text : text) (verified : value)
    (citation : text) : M value :=
  info (str "Checking citation: " ++ [dquote] ++ take 50 citation
          ++ str "..." ++ [dquote]);;
  match fuzzy_find_in_text citation input_text (max_fuzzy_distance self) with
  | Some (res, dist) =>
      verified' ← lift (method_replace verified citation res);
      (if decide (dist = 0)
       then info (str "Found exact match")
       else info (str "Found a match " ++ str (pretty dist)
                    ++ str " character(s) apart"));;
      mret verified'
  | None =>
      verified' ← lift (method_replace verified citation NOT_FOUND);
      info (str "CITATION NOT FOUND");;
      mret verified'
  end.

(** The body of the loop over the rows (lines 572-591). *)
Definition check_row (output_field : text) (input_fields : list text)
    (row : Z) : M unit :=
  df ← get_data;
  output ← lift (loc df row output_field);
  citations ← lift (extract_citations output);
  cells ← lift (loc_list df row input_fields);
  input_text ← lift (str_join [newline; newline] cells);
  verified ← for_fold citations output (check_citation input_text);
  df' ← get_data;
  put_data (loc_set df' row (_verified_field_name output_field) verified).

(** [Scientist.check_citations] (lines 558-591). *)
Definition check_citations (output_field : text) (input_fields : list text)
    (rows : list Z) : M unit :=
  df ← get_data;
  (if decide (_verified_field_name output_field ∈ df_columns df)
   then mret tt
   else put_data (setitem df (_verified_field_name output_field) (VStr [])));;
  for_each rows (check_row output_field input_fields).

End CheckCitations.


(** ** The helpers of [gpt_scientist.citation_checker] *)

(** [m] is a contiguous substring of [h]. *)
Definition substring (m h : text) : Prop :=
  exists pre post, h = pre ++ m ++ post.

(** [edit s t n]: [n] single-character insertions, deletions and
    substitutions turn [s] into [t]. *)
Inductive edit : text -> text -> nat -> Prop :=
| edit_nil : edit [] [] 0
| edit_keep c s t n : edit s t n -> edit (c :: s) (c :: t) n
| edit_substitute a b s t n : edit s t n -> edit (a :: s) (b :: t) (S n)
| edit_delete a s t n : edit s t n -> edit (a :: s) t (S n)
| edit_insert b s t n : edit s t n -> edit s (b :: t) (S n).

(** [n] is the least number of edits between [x] and a substring of [h]. *)
Definition min_edit_distance (x h : text) (n : nat) : Prop :=
  (exists m, substring m h /\ edit x m n) /\
  (forall m k, substring m h -> edit x m k -> n <= k).

Module citation_checker.

(** Modelled from the spec: [citation_checker.py] is not among the sources.
    The quotation-mark pairs of section 4.1: a straight quote closes a
    straight quote, a right curly quote (U+201D) closes a left one
    (U+201C). *)
Definition closing_quote (c : char) : option char :=
  if (c =? 34)%N then Some 34%N
  else if (c =? 8220)%N then Some 8221%N
  else None.

(** Modelled from the spec: the search for the closing quote, as the
    position of the first [c] in [s]. *)
Fixpoint find_char (c : char) (s : text) : option nat :=
  match s with
  | [] => None
  | b :: s' => if (b =? c)%N then Some 0 else S <$> find_char c s'
  end.

(** Modelled from the spec: the quote scanner of section 4.1. Left to
    right, an opening quote with a closing quote after it gives the span in
    between, and the scan goes on behind the closing quote; an empty span is
    left out; an opening quote that is never closed is passed over
    (section 7, ExtractionAmbiguity). [skip] counts the characters of a span
    just taken that are still to be passed over. *)
Fixpoint scan_quotes (skip : nat) (s : text) : list text :=
  match s with
  | [] => []
  | c :: s' =>
      match skip with
      | S k => scan_quotes k s'
      | O =>
          match closing_quote c with
          | Some close =>
              match find_char close s' with
              | Some n =>
                  (if decide (n = 0) then [] else [take n s'])
                    ++ scan_quotes (S n) s'
              | None => scan_quotes 0 s'
              end
          | None => scan_quotes 0 s'
          end
      end
  end.

(** Modelled from the spec: [extract_citations(text: String) ->
    Sequence<Citation>] of section 4.1, a pure function of the string. The
    contract covers strings only; section 9 calls the source's extraction
    regex-based, and a regex scan of a value that is not a [str] raises
    [TypeError]. *)
Definition extract_citations (v : value) : result (list text) :=
  match v with
  | VStr s => Ok (scan_quotes 0 s)
  | _ => Raise TypeError
  end.

(** Modelled from the spec: the Levenshtein distance of section 4.2 and of
    the glossary, unit cost for an insertion, a deletion and a
    substitution. *)
Fixpoint levenshtein (s : text) : text -> nat :=
  match s with
  | [] => fun t => length t
  | a :: s' =>
      fix levenshtein_a (t : text) : nat :=
        match t with
        | [] => S (length s')
        | b :: t' =>
            Nat.min
              (Nat.min (S (levenshtein s' t)) (S (levenshtein_a t')))
              ((if (a =? b)%N then 0 else 1) + levenshtein s' t')
        end
  end.

(** Modelled from the spec: the substrings that start at offset 0 and are
    not empty, shortest first. *)
Fixpoint prefixes (s : text) : list text :=
  match s with
  | [] => []
  | c :: s' => [c] :: List.map (cons c) (prefixes s')
  end.

(** Modelled from the spec: the contiguous substrings of the haystack in the
    order of the tie-break policy of section 4.2, earliest starting offset
    first and, from one offset, shortest first. *)
Fixpoint candidates (h : text) : list text :=
  match h with
  | [] => []
  | _ :: h' => prefixes h ++ candidates h'
  end.

(** Modelled from the spec: one step of the search under the tie-break
    policy, in which a candidate replaces the best one so far only when it is
    strictly closer. *)
Definition closer (needle : text) (best : option (text * nat)) (m : text)
  : option (text * nat) :=
  match best with
  | None => Some (m, levenshtein needle m)
  | Some (_, d) =>
      if levenshtein needle m <? d then Some (m, levenshtein needle m)
      else best
  end.

(** Modelled from the spec: the first of the candidates at the least
    distance from the needle. *)
Definition closest (needle haystack : text) : option (text * nat) :=
  fold_left (closer needle) (candidates haystack) None.

(** Modelled from the spec: [fuzzy_find_in_text(needle, haystack,
    max_distance) -> MatchResult] of section 4.2. The substring of the
    haystack closest to the needle, with its distance, when that distance is
    within the budget, and no match otherwise; an empty needle matches at
    distance 0 at offset 0; an empty haystack gives no match unless the
    needle is empty too. The budget is a natural number: section 6 has the
    caller supply a positive integer, section 8 uses 0 as well. *)
Definition fuzzy_find_in_text (needle haystack : text) (max_distance : nat)
  : option (text * nat) :=
  match needle with
  | [] => Some ([], 0)
  | _ :: _ =>
      match closest needle haystack with
      | Some (m, d) => if d <=? max_distance then Some (m, d) else None
      | None => None
      end
  end.

End citation_checker.

(** Modelled from the spec: the two helpers of [citation_checker.py] as
    sections 4.1 and 4.2 describe them. *)
#[global] Instance citation_checker_spec : CitationChecker := {|
  extract_citations := citation_checker.extract_citations;
  fuzzy_find_in_text := citation_checker.fuzzy_find_in_text
|}.

(** ** What the driver computes, as pure functions of the dataframe *)

Section Views.

Context `{CitationChecker}.
Variable self : Scientist.

(** What the driver puts in the place of a citation: the matched substring,
    or the marker. *)
Definition replacement (input_text citation : text) : text :=
  match fuzzy_find_in_text citation input_text (max_fuzzy_distance self) with
  | Some (res, _) => res
  | None => NOT_FOUND
  end.

(** The citations substituted one after the other, each by [replace]. *)
Definition verified_text (input_text : text) (citations : list text)
    (output : text) : text :=
  fold_left (fun v c => replace c (replacement input_text c) v)
    citations output.

(** The loop over the citations, without the logging. *)
Fixpoint verify_value (input_text : text) (citations : list text)
    (verified : value) : result value :=
  match citations with
  | [] => Ok verified
  | c :: cs =>
      match method_replace verified c (replacement input_text c) with
      | Ok v => verify_value input_text cs v
      | Raise e => Raise e
      end
  end.

(** What one pass of the loop over the rows writes for [row], or the
    exception it raises. *)
Definition row_verified (output_field : text) (input_fields : list text)
    (df : DataFrame) (row : Z) : result value :=
  match loc df row output_field with
  | Ok output =>
      match extract_citations output with
      | Ok citations =>
          match loc_list df row input_fields with
          | Ok cells =>
              match str_join [newline; newline] cells with
              | Ok input_text => verify_value input_text citations output
              | Raise e => Raise e
              end
          | Raise e => Raise e
          end
      | Raise e => Raise e
      end
  | Raise e => Raise e
  end.

(** The loop over the rows on the dataframe alone. *)
Fixpoint rows_view (output_field : text) (input_fields : list text)
    (df : DataFrame) (rows : list Z) : result unit * DataFrame :=
  match rows with
  | [] => (Ok tt, df)
  | r :: rs =>
      match row_verified output_field input_fields df r with
      | Ok v =>
          rows_view output_field input_fields
            (loc_set df r (_verified_field_name output_field) v) rs
      | Raise e => (Raise e, df)
      end
  end.

End Views.

(** Lines 569-570 on the dataframe alone. *)
Definition ensure_column (output_field : text) (df : DataFrame) : DataFrame :=
  if decide (_verified_field_name output_field ∈ df_columns df) then df
  else setitem df (_verified_field_name output_field) (VStr []).

(** ** The words of the specification *)

(** The reference text: the input-field values with a blank line between
    them. *)
Definition reference_text (vals : list text) : text :=
  match vals with
  | [] => []
  | v :: vs => v ++ flat_map (fun s => newline :: newline :: s) vs
  end.

(** A substitution of the first occurrence of [old] only, which is what
    [s.replace(old, new, 1)] would do. *)
Fixpoint replace_first (old new s : text) : text :=
  if startswith old s then new ++ drop (length old) s
  else match s with
       | [] => []
       | c :: s' => c :: replace_first old new s'
       end.

(** The verified text under first-occurrence substitution. *)
Definition verified_text_first_occurrence (r : text -> text)
    (citations : list text) (output : text) : text :=
  fold_left (fun v c => replace_first c (r c) v) citations output.

(** Each citation is non-empty and occurs at most once in the text as it
    stands when the citation is substituted. *)
Fixpoint at_most_once (r : text -> text) (citations : list text) (v : text)
  : bool :=
  match citations with
  | [] => true
  | c :: cs =>
      negb (bool_decide (c = [])) && (occurrences c v <=? 1)
        && at_most_once r cs (replace c (r c) v)
  end.

(** A text cut into citations and the text after each of them. *)
Fixpoint assemble (parts : list (text * text)) : text :=
  match parts with
  | [] => []
  | (c, seg) :: ps => c ++ seg ++ assemble ps
  end.

(** Each citation of [pre ++ assemble parts] is non-empty and occurs exactly
    once in the text as it stands when the citation is substituted. *)
Fixpoint isolated (r : text -> text) (pre : text) (parts : list (text * text))
  : bool :=
  match parts with
  | [] => true
  | (c, seg) :: ps =>
      negb (bool_decide (c = []))
        && (occurrences c (pre ++ c ++ seg ++ assemble ps) =? 1)
        && isolated r (pre ++ r c ++ seg) ps
  end.

(** The two dataframes hold the same values in the output field and in the
    input fields of the given rows. *)
Definition same_inputs (output_field : text) (input_fields : list text)
    (rows : list Z) (df df' : DataFrame) : Prop :=
  Forall (fun r =>
            Forall (fun f => loc df' r f = loc df r f)
              (output_field :: input_fields)) rows.

(** ** Example dataframes *)

(** [Scientist.set_max_fuzzy_distance] (lines 142-144). *)
Definition set_max_fuzzy_distance (self : Scientist) (max_fuzzy_distance : nat)
  : Scientist :=
  {| max_fuzzy_distance := max_fuzzy_distance |}.

(** A text between straight double quotes. *)
Definition quoted (s : text) : text := dquote :: s ++ [dquote].

Definition SOURCE : text := str "source".
Definition ANSWER : text := str "answer".

(** A dataframe with the columns [source] and [answer], one row per pair, the
    rows labelled 0, 1, ... as [pandas.read_csv] labels them. *)
Definition frame_of (rows : list (value * value)) : DataFrame :=
  {| df_index := Z.of_nat <$> seq 0 (length rows);
     df_columns := [SOURCE; ANSWER];
     df_cells :=
       list_to_map
         (flat_map (fun '(i, (s, a)) =>
                      [((Z.of_nat i, SOURCE), s); ((Z.of_nat i, ANSWER), a)])
            (imap (fun i x => (i, x)) rows)) |}.

Definition initial (df : DataFrame) : state := {| data := df; log := [] |}.

(** The citation stands a second time outside the quotes. *)
Definition frame_repeat : DataFrame :=
  frame_of [(VStr (str "b"), VStr (str "a " ++ quoted (str "a")))].

(** The same with the quoted occurrence first. *)
Definition frame_repeat_after : DataFrame :=
  frame_of [(VStr (str "b"), VStr (quoted (str "a") ++ str " a"))].

(** One citation, one character away from the source. *)
Definition frame_near : DataFrame :=
  frame_of
    [(VStr (str "abd"), VStr (str "x " ++ quoted (str "abc") ++ str " y"))].

(** Two citations, the first inside the second: the source is near the first
    and far from the second. *)
Definition frame_inside : DataFrame :=
  frame_of
    [(VStr (str "x"),
      VStr (quoted (str "b") ++ str " " ++ quoted (str "abcd")))].

(** One citation that the source holds verbatim. *)
Definition frame_exact : DataFrame :=
  frame_of [(VStr (str "xxabcxx"), VStr (str "see " ++ quoted (str "abc")))].

(** Row 0 has an empty answer and a missing source; row 1 is well formed. *)
Definition frame_nan : DataFrame :=
  frame_of [(VNaN, VStr []); (VStr (str "a"), VStr (quoted (str "a")))].

(** Row 0 has a missing answer beside a source that is a string; row 1 is
    well formed. *)
Definition frame_absent : DataFrame :=
  frame_of [(VStr (str "some text"), VNaN);
            (VStr (str "a"), VStr (quoted (str "a")))].

(** A checker whose extractor finds no citation in a cell that is no string,
    as an extractor that tests [isinstance(text, str)] first does; on strings
    it is [citation_checker_spec]. *)
Definition citation_checker_lenient : CitationChecker := {|
  extract_citations v :=
    match v with
    | VStr s => citation_checker.extract_citations (VStr s)
    | _ => Ok []
    end;
  fuzzy_find_in_text := citation_checker.fuzzy_find_in_text
|}.

(** An empty answer beside a source that is a string. *)
Definition frame_empty : DataFrame :=
  frame_of [(VStr (str "some text"), VStr [])].

(** Two rows, and the same dataframe with another answer in row 1 and with
    the derived column already filled. *)
Definition frame_two : DataFrame :=
  frame_of
    [(VStr (str "abd"), VStr (str "x " ++ quoted (str "abc") ++ str " y"));
     (VStr (str "a"), VStr (quoted (str "a")))].

Definition frame_two_other : DataFrame :=
  setitem
    (frame_of
       [(VStr (str "abd"), VStr (str "x " ++ quoted (str "abc") ++ str " y"));
        (VStr (str "a"), VStr (quoted (str "zz")))])
    (_verified_field_name ANSWER) (VStr (str "stale")).

(** ** Worksheet names and row ranges *)

(** [GSHEET_FIRST_ROW] (line 34): the first row below the header, in the
    numbering of a sheet. *)
Definition GSHEET_FIRST_ROW : Z := 2.

Definition comma : char := 44%N.
Definition colon : char := 58%N.

(** [self.logger.error(msg)]: the log keeps the message. *)
Definition error (msg : text) : M unit := info msg.

(** The first piece of [s.split(sep)] and the pieces after it, for a
    separator of one character. *)
Fixpoint split_pieces (sep : char) (s : text) : text * list text :=
  match s with
  | [] => ([], [])
  | c :: s' =>
      let '(p, ps) := split_pieces sep s' in
      if (c =? sep)%N then ([], p :: ps) else (c :: p, ps)
  end.

(** [s.split(sep)] *)
Definition str_split (sep : char) (s : text) : list text :=
  let '(p, ps) := split_pieces sep s in p :: ps.

(** The elements of [range(start, stop)]. *)
Definition py_range (start stop : Z) : list Z := seqZ start (stop - start).

(** [sys.maxsize] on a 64-bit build of CPython. *)
Definition sys_maxsize : Z := 9223372036854775807.

(** [row_indexes.extend(range(start, stop))] (line 458): [extend] first asks
    the range for its length, and [len] of a range of more than
    [sys.maxsize] elements raises [OverflowError]. A list that the memory
    cannot hold is outside this model, as for every other list. *)
Definition extend_range (row_indexes : list Z) (start stop : Z)
  : result (list Z) :=
  if decide (sys_maxsize < stop - start)%Z then Raise OverflowError
  else Ok (row_indexes ++ py_range start stop).

(** The line that a refused number leaves in the log (line 444). *)
Definition invalid_line (range_str : text) : text :=
  str "Invalid row range: " ++ range_str.

Section RowRanges.

(** The builtin [int] on a string: the number, or [None] where it raises
    [ValueError]. *)
Variable int : text -> option Z.

(** The inner function [parse_int] of [_parse_row_ranges] (lines 440-445). *)
Definition parse_int (range_str s : text) : M Z :=
  match int s with
  | Some z => mret z
  | None =>
      error (invalid_line range_str);;
      mret GSHEET_FIRST_ROW
  end.

(** The body of the loop over the pieces (lines 448-460). A piece that holds
    a colon splits in two parts at least, so that [parts[1]] is there: the
    last branch of the [match] is never taken. The [ValueError] of [int] is
    caught in [parse_int]; the [OverflowError] of line 458 is not. *)
Definition parse_row_range (range_str : text) (n_rows : Z)
    (row_indexes : list Z) (r : text) : M (list Z) :=
  if bool_decide (colon ∈ r) then
    match str_split colon r with
    | p0 :: p1 :: _ =>
        start ← (if bool_decide (length p0 = 0) then mret 0%Z
                 else z ← parse_int range_str p0;
                      mret (z - GSHEET_FIRST_ROW)%Z);
        stop ← (if bool_decide (length p1 = 0) then mret n_rows
                else z ← parse_int range_str p1;
                     mret (z - GSHEET_FIRST_ROW + 1)%Z);
        lift (extend_range row_indexes start stop)
    | _ => mret row_indexes
    end
  else if bool_decide (r <> []) then
    z ← parse_int range_str r;
    mret (row_indexes ++ [(z - GSHEET_FIRST_ROW)%Z])
  else mret row_indexes.

(** [Scientist._parse_row_ranges] (lines 431-462). *)
Definition _parse_row_ranges (range_str : text) (n_rows : Z) : M (list Z) :=
  for_fold (str_split comma range_str) [] (parse_row_range range_str n_rows).

(** What [parse_int] answers, without the logging. *)
Definition int_or_first_row (s : text) : Z := default GSHEET_FIRST_ROW (int s).

(** The row indexes that one piece stands for, or the exception of line
    458. *)
Definition piece_indexes (n_rows : Z) (r : text) : result (list Z) :=
  if bool_decide (colon ∈ r) then
    match str_split colon r with
    | p0 :: p1 :: _ =>
        extend_range []
          (if bool_decide (length p0 = 0) then 0%Z
           else (int_or_first_row p0 - GSHEET_FIRST_ROW)%Z)
          (if bool_decide (length p1 = 0) then n_rows
           else (int_or_first_row p1 - GSHEET_FIRST_ROW + 1)%Z)
    | _ => Ok []
    end
  else if bool_decide (r <> [])
       then Ok [(int_or_first_row r - GSHEET_FIRST_ROW)%Z]
  else Ok [].

(** The numbers of a piece that [int] refuses, in the order in which the
    piece is read. *)
Definition piece_refused (r : text) : list text :=
  let refused s := if int s is Some _ then [] else [s] in
  if bool_decide (colon ∈ r) then
    match str_split colon r with
    | p0 :: p1 :: _ =>
        (if bool_decide (length p0 = 0) then [] else refused p0)
          ++ (if bool_decide (length p1 = 0) then [] else refused p1)
    | _ => []
    end
  else if bool_decide (r <> []) then refused r
  else [].

(** The row indexes of the pieces in order, up to the first piece that
    raises. *)
Fixpoint pieces_indexes (n_rows : Z) (pieces : list text)
  : result (list Z) :=
  match pieces with
  | [] => Ok []
  | r :: rs =>
      match piece_indexes n_rows r with
      | Ok l =>
          match pieces_indexes n_rows rs with
          | Ok l' => Ok (l ++ l')
          | Raise e => Raise e
          end
      | Raise e => Raise e
      end
  end.

(** The numbers that [int] refuses, in the pieces read until a piece
    raises. *)
Fixpoint pieces_refused (n_rows : Z) (pieces : list text) : list text :=
  match pieces with
  | [] => []
  | r :: rs =>
      piece_refused r ++
      match piece_indexes n_rows r with
      | Ok _ => pieces_refused n_rows rs
      | Raise _ => []
      end
  end.

End RowRanges.

(** An [int] for the examples: decimal ASCII digits after an optional sign.
    The builtin reads more than that (blanks around the number, underscores
    between digits, the decimal digits of other scripts), which is why
    [_parse_row_ranges] takes [int] as a parameter. *)
Fixpoint digits_value (acc : Z) (s : text) : option Z :=
  match s with
  | [] => Some acc
  | c :: s' =>
      if (48 <=? c)%N && (c <=? 57)%N
      then digits_value (10 * acc + Z.of_N (c - 48)) s'
      else None
  end.

Definition ascii_int (s : text) : option Z :=
  match s with
  | [] => None
  | c :: s' =>
      if (c =? 45)%N then
        match s' with [] => None | _ :: _ => Z.opp <$> digits_value 0 s' end
      else if (c =? 43)%N then
        match s' with [] => None | _ :: _ => digits_value 0 s' end
      else digits_value 0 s
  end.

(** [f"{self.output_sheet}_{i}"] *)
Definition numbered (output_sheet : text) (i : nat) : text :=
  output_sheet ++ str "_" ++ str (pretty i).

(** The [while] loop of [_output_sheet_name] (lines 471-472) from [i], with
    its result; [None] when [fuel] passes of the loop do not end it. *)
Fixpoint first_free (fuel : nat) (output_sheet : text)
    (worksheet_names : list text) (i : nat) : option text :=
  match fuel with
  | O => None
  | S fuel' =>
      if bool_decide (numbered output_sheet i ∈ worksheet_names)
      then first_free fuel' output_sheet worksheet_names (S i)
      else Some (numbered output_sheet i)
  end.

(** [Scientist._output_sheet_name] (lines 464-474), given [self.output_sheet]
    and the titles of [spreadsheet.worksheets()]. *)
Definition _output_sheet_name (fuel : nat) (output_sheet : text)
    (worksheet_names : list text) : option text :=
  if bool_decide (output_sheet ∈ worksheet_names)
  then first_free fuel output_sheet worksheet_names 1
  else Some output_sheet.

(** ** The texts of a row *)

(** The label of a row with its output text, the citations of the output
    text, and the texts of its input fields. *)
Record RowTexts := {
  row_label : Z;
  row_output : text;
  row_citations : list text;
  row_inputs : list text
}.

(** The dataframe holds these texts in the row, and the extractor finds these
    citations. *)
Definition holds_texts `{CitationChecker} (output_field : text)
    (input_fields : list text) (df : DataFrame) (t : RowTexts) : Prop :=
  loc df (row_label t) output_field = Ok (VStr (row_output t)) /\
  extract_citations (VStr (row_output t)) = Ok (row_citations t) /\
  loc_list df (row_label t) input_fields = Ok (VStr <$> row_inputs t).
(** ** Facts about [str.replace] *)

Lemma startswith_app (p s : text) : startswith p (p ++ s) = true.
Proof.
  induction p as [|a p IH]; simpl; [done|].
  by rewrite N.eqb_refl, IH.
Qed.

Lemma startswith_inv (p s : text) :
  startswith p s = true -> s = p ++ drop (length p) s.
Proof.
  revert s. induction p as [|a p IH]; intros [|b s]; simpl; try done.
  intros [Hab Hps]%andb_prop. apply N.eqb_eq in Hab. subst b.
  f_equal. by apply IH.
Qed.

Lemma replace_from_skip (old new : text) (k : nat) (s : text) :
  replace_from old new k s = replace_from old new 0 (drop k s).
Proof.
  revert k. induction s as [|c s IH]; intros [|k]; simpl; try done; apply IH.
Qed.

Lemma replace_from_cons (old new : text) (c : char) (s : text) :
  replace_from old new 0 (c :: s) =
  if startswith old (c :: s)
  then new ++ replace_from old new 0 (drop (length old - 1) s)
  else c :: replace_from old new 0 s.
Proof. simpl replace_from at 1. by rewrite <- replace_from_skip. Qed.

(** Replacing a string by itself changes nothing. *)
Lemma replace_from_same (old : text) (k : nat) (s : text) :
  old <> [] -> replace_from old old k s = drop k s.
Proof.
  intros Hold. revert k. induction s as [|c s IH]; intros [|k]; simpl; try done.
  - destruct (startswith old (c :: s)) eqn:Hsw.
    + rewrite IH. apply startswith_inv in Hsw.
      destruct old as [|a old']; [done|]. simpl in Hsw.
      injection Hsw as -> Hs.
      replace (length (a :: old') - 1) with (length old') by (simpl; lia).
      simpl. by rewrite <- Hs.
    + by rewrite (IH 0).
Qed.

Lemma replace_same (old s : text) : replace old old s = s.
Proof.
  destruct old as [|a old']; simpl.
  - induction s as [|c s IH]; simpl; [done|]. by f_equal.
  - change (replace_from (a :: old') (a :: old') 0 s = s).
    by rewrite replace_from_same.
Qed.

Lemma occurrences_cons (old : text) (c : char) (s : text) :
  occurrences old (c :: s) =
  (if startswith old (c :: s) then 1 else 0) + occurrences old s.
Proof. reflexivity. Qed.

Lemma occurrences_app_le (old pre s : text) :
  occurrences old s <= occurrences old (pre ++ s).
Proof.
  induction pre as [|c pre IH]; simpl app; [lia|].
  rewrite occurrences_cons. lia.
Qed.

Lemma occurrences_here (old s : text) : 1 <= occurrences old (old ++ s).
Proof.
  pose proof (startswith_app old s) as Hsw.
  destruct (old ++ s) as [|c r] eqn:E.
  - simpl. rewrite Hsw. lia.
  - rewrite occurrences_cons, Hsw. lia.
Qed.

(** Where [old] does not occur, nothing is replaced. *)
Lemma replace_from_absent (old new s : text) :
  occurrences old s = 0 -> replace_from old new 0 s = s.
Proof.
  induction s as [|c s IH]; [done|].
  rewrite occurrences_cons, replace_from_cons.
  destruct (startswith old (c :: s)); [lia|].
  intros H. f_equal. apply IH. lia.
Qed.

(** Where [old] occurs exactly once, that occurrence is the one replaced. *)
Lemma replace_once (old new pre post : text) :
  old <> [] ->
  occurrences old (pre ++ old ++ post) = 1 ->
  replace old new (pre ++ old ++ post) = pre ++ new ++ post.
Proof.
  intros Hold. destruct old as [|a old']; [done|]. unfold replace.
  induction pre as [|c pre IH]; simpl app; intros Hocc.
  - rewrite occurrences_cons in Hocc. rewrite replace_from_cons.
    change (a :: old' ++ post) with ((a :: old') ++ post) in *.
    rewrite startswith_app in *.
    replace (length (a :: old') - 1) with (length old') by (simpl; lia).
    rewrite drop_app_length.
    f_equal. apply replace_from_absent.
    pose proof (occurrences_app_le (a :: old') old' post). lia.
  - rewrite occurrences_cons in Hocc. rewrite replace_from_cons.
    pose proof (occurrences_app_le (a :: old') pre ((a :: old') ++ post)).
    pose proof (occurrences_here (a :: old') post).
    simpl app in *.
    destruct (startswith (a :: old') (c :: _)); [lia|].
    f_equal. apply IH. lia.
Qed.

Lemma occurrences_substring (old s : text) :
  substring old s -> 1 <= occurrences old s.
Proof.
  intros (pre & post & ->).
  pose proof (occurrences_app_le old pre (old ++ post)).
  pose proof (occurrences_here old post). lia.
Qed.

(** [replace] leaves [new] wherever it finds [old]. *)
Lemma replace_keeps_new (old new s : text) :
  substring old s -> substring new (replace old new s).
Proof.
  intros Hsub. destruct old as [|a old'].
  - by exists [], (flat_map (fun c => c :: new) s).
  - apply occurrences_substring in Hsub. unfold replace.
    induction s as [|c s IH]; [simpl in Hsub; lia|].
    rewrite occurrences_cons in Hsub. rewrite replace_from_cons.
    destruct (startswith (a :: old') (c :: s)).
    + by eexists [], _.
    + destruct IH as (pre & post & Heq); [lia|].
      exists (c :: pre), post. by rewrite Heq.
Qed.

(** [replace] leaves a text in which [old] does not occur. *)
Lemma replace_absent (old new s : text) :
  old <> [] -> occurrences old s = 0 -> replace old new s = s.
Proof.
  intros Hold Hocc. destruct old as [|a old']; [done|].
  by apply replace_from_absent.
Qed.

(** ** The driver and its pure views *)

Lemma str_join_strings (vals : list text) :
  str_join [newline; newline] (VStr <$> vals) = Ok (reference_text vals).
Proof.
  induction vals as [|v vs IH]; [done|].
  destruct vs as [|w ws]; [simpl; by rewrite app_nil_r|].
  change (VStr <$> v :: w :: ws) with (VStr v :: (VStr <$> w :: ws)).
  change (str_join [newline; newline] (VStr v :: (VStr <$> w :: ws)))
    with (match str_join [newline; newline] (VStr <$> w :: ws) with
          | Ok t => Ok (v ++ [newline; newline] ++ t)
          | Raise e => Raise e
          end).
  rewrite IH. reflexivity.
Qed.

Section Driver.

Context `{CitationChecker}.
Variable self : Scientist.

Lemma check_citation_view (it : text) (v : value) (c : text) (st : state) :
  (check_citation self it v c st).1
    = method_replace v c (replacement self it c) /\
  data (check_citation self it v c st).2 = data st.
Proof.
  unfold check_citation, replacement, mbind, M_bind,
    info, lift, mret, M_ret.
  simpl. destruct (fuzzy_find_in_text c it _) as [[res dist]|];
    destruct (method_replace v c _); simpl; try done.
  by destruct (decide (dist = 0)).
Qed.

(** A citation with no match leaves two lines in the log, the second the
    marker. *)
Lemma check_citation_not_found_log (it s c : text) (st : state) :
  fuzzy_find_in_text c it (max_fuzzy_distance self) = None ->
  log (check_citation self it (VStr s) c st).2 =
    log st ++ [str "Checking citation: " ++ [dquote] ++ take 50 c
                 ++ str "..." ++ [dquote];
               str "CITATION NOT FOUND"].
Proof.
  intros Hnone.
  unfold check_citation, mbind, M_bind, info, lift, mret, M_ret. simpl.
  rewrite Hnone. simpl. by rewrite <- app_assoc.
Qed.

Lemma for_fold_view (it : text) (cits : list text) (v : value) (st : state) :
  (for_fold cits v (check_citation self it) st).1
    = verify_value self it cits v /\
  data (for_fold cits v (check_citation self it) st).2 = data st.
Proof.
  revert v st. induction cits as [|c cs IH]; intros v st; [done|].
  simpl. unfold mbind, M_bind.
  destruct (check_citation_view it v c st) as [H1 H2].
  destruct (check_citation self it v c st) as [[v'|e] st1]; simpl in *;
    rewrite <- H1; [|done].
  destruct (IH v' st1) as [H3 H4]. by rewrite H3, H4.
Qed.

Lemma verify_value_str (it : text) (cits : list text) (s : text) :
  verify_value self it cits (VStr s) = Ok (VStr (verified_text self it cits s)).
Proof.
  revert s. induction cits as [|c cs IH]; intros s; [done|].
  simpl. by rewrite IH.
Qed.

(** One pass of the loop over the rows writes what [row_verified] gives, or
    raises what it raises and leaves the dataframe alone. *)
Lemma check_row_view (o : text) (ins : list text) (row : Z) (st : state) :
  (check_row self o ins row st).1 =
    match row_verified self o ins (data st) row with
    | Ok _ => Ok tt
    | Raise e => Raise e
    end /\
  data (check_row self o ins row st).2 =
    match row_verified self o ins (data st) row with
    | Ok v => loc_set (data st) row (_verified_field_name o) v
    | Raise _ => data st
    end.
Proof.
  unfold check_row, row_verified, mbind, M_bind,
    get_data, put_data, lift.
  destruct (loc (data st) row o) as [output|e]; [|done].
  destruct (extract_citations output) as [cits|e]; [|done].
  destruct (loc_list (data st) row ins) as [cells|e]; [|done].
  destruct (str_join _ cells) as [it|e]; [|done].
  destruct (for_fold_view it cits output st) as [H1 H2].
  destruct (for_fold cits output (check_citation self it) st) as [[v|e] st1];
    simpl in *; rewrite <- H1; [|done].
  by rewrite H2.
Qed.

Lemma for_each_view (o : text) (ins : list text) (rows : list Z)
    (st : state) :
  (for_each rows (check_row self o ins) st).1
    = (rows_view self o ins (data st) rows).1
  /\ data (for_each rows (check_row self o ins) st).2
     = (rows_view self o ins (data st) rows).2.
Proof.
  revert st. induction rows as [|r rs IH]; intros st; [done|].
  simpl. unfold mbind, M_bind.
  destruct (check_row_view o ins r st) as [H1 H2].
  destruct (check_row self o ins r st) as [[[]|e] st1]; simpl in *;
    destruct (row_verified self o ins (data st) r) as [v|e']; try done.
  rewrite <- H2. apply IH.
Qed.

(** The whole of [check_citations] on the dataframe alone. *)
Lemma check_citations_view (o : text) (ins : list text) (rows : list Z)
    (st : state) :
  (check_citations self o ins rows st).1
    = (rows_view self o ins (ensure_column o (data st)) rows).1 /\
  data (check_citations self o ins rows st).2
    = (rows_view self o ins (ensure_column o (data st)) rows).2.
Proof.
  unfold check_citations, ensure_column, mbind, M_bind, get_data,
    put_data, mret, M_ret.
  destruct (decide (_verified_field_name o ∈ df_columns (data st)));
    apply for_each_view.
Qed.

Lemma rows_view_app (o : text) (ins : list text) (df : DataFrame)
    (rows rows' : list Z) :
  rows_view self o ins df (rows ++ rows') =
    match rows_view self o ins df rows with
    | (Ok _, df1) => rows_view self o ins df1 rows'
    | (Raise e, df1) => (Raise e, df1)
    end.
Proof.
  revert df. induction rows as [|r rs IH]; intros df; [done|].
  simpl. destruct (row_verified self o ins df r); [apply IH | done].
Qed.

End Driver.

(** ** Reading a dataframe after a write *)

Lemma loc_ok_inv (df : DataFrame) (r : Z) (c : text) (v : value) :
  loc df r c = Ok v -> r ∈ df_index df /\ c ∈ df_columns df.
Proof.
  unfold loc. destruct (decide (r ∈ df_index df)); [|done].
  by destruct (decide (c ∈ df_columns df)).
Qed.

Lemma loc_is_ok (df : DataFrame) (r : Z) (c : text) :
  r ∈ df_index df -> c ∈ df_columns df -> exists v, loc df r c = Ok v.
Proof.
  intros Hr Hc. unfold loc. rewrite decide_True, decide_True by done. eauto.
Qed.

Lemma loc_loc_set (df : DataFrame) (row : Z) (col : text) (v : value)
    (r : Z) (c : text) :
  row ∈ df_index df -> col ∈ df_columns df ->
  loc (loc_set df row col v) r c =
    if decide (r = row /\ c = col) then Ok v else loc df r c.
Proof.
  intros Hrow Hcol. unfold loc, loc_set. simpl.
  rewrite (decide_True (P := row ∈ df_index df)) by done.
  rewrite (decide_True (P := col ∈ df_columns df)) by done.
  destruct (decide (r = row /\ c = col)) as [[-> ->]|Hne].
  - rewrite decide_True, decide_True by done. by rewrite lookup_insert_eq.
  - rewrite lookup_insert_ne; [done|]. intros [= <- <-]. by apply Hne.
Qed.

Lemma loc_set_index (df : DataFrame) (row : Z) (col : text) (v : value) :
  row ∈ df_index df -> df_index (loc_set df row col v) = df_index df.
Proof. intros Hrow. unfold loc_set. simpl. by rewrite decide_True. Qed.

Lemma loc_set_columns (df : DataFrame) (row : Z) (col : text) (v : value) :
  col ∈ df_columns df -> df_columns (loc_set df row col v) = df_columns df.
Proof. intros Hcol. unfold loc_set. simpl. by rewrite decide_True. Qed.

Lemma column_cells_lookup (cells : gmap (Z * text) value) (idx : list Z)
    (col : text) (v : value) (r : Z) (c : text) :
  foldr (fun r m => <[(r, col) := v]> m) cells idx !! (r, c) =
    if decide (c = col /\ r ∈ idx) then Some v else cells !! (r, c).
Proof.
  induction idx as [|i idx IH]; simpl.
  - rewrite decide_False; [done|]. intros [_ Hr]. by apply elem_of_nil in Hr.
  - destruct (decide ((i, col) = (r, c))) as [[= -> ->]|Hne].
    + rewrite lookup_insert_eq. rewrite decide_True; [done|].
      split; [done | apply list_elem_of_here].
    + rewrite lookup_insert_ne by done. rewrite IH.
      destruct (decide (c = col /\ r ∈ idx)) as [[-> Hr]|Hn].
      * rewrite decide_True; [done|]. split; [done|].
        by apply list_elem_of_further.
      * rewrite decide_False; [done|]. intros [-> Hr].
        apply elem_of_cons in Hr as [->|Hr]; [by apply Hne | by apply Hn].
Qed.

Lemma loc_setitem (df : DataFrame) (col : text) (v : value) (r : Z) (c : text) :
  loc (setitem df col v) r c =
    if decide (c = col)
    then if decide (r ∈ df_index df) then Ok v else Raise KeyError
    else loc df r c.
Proof.
  unfold loc, setitem. simpl.
  destruct (decide (r ∈ df_index df)) as [Hr|Hr];
    [|by destruct (decide (c = col))].
  rewrite column_cells_lookup.
  destruct (decide (c = col)) as [->|Hc].
  - rewrite (decide_True (P := col = col /\ r ∈ df_index df)) by done.
    destruct (decide (col ∈ df_columns df)).
    + by rewrite decide_True.
    + rewrite decide_True; [done|]. apply elem_of_app. right.
      apply list_elem_of_here.
  - rewrite (decide_False (P := c = col /\ r ∈ df_index df))
      by (by intros [? _]).
    destruct (decide (col ∈ df_columns df)); [done|].
    destruct (decide (c ∈ df_columns df)) as [Hin|Hin].
    + rewrite decide_True; [done|]. apply elem_of_app. by left.
    + rewrite decide_False; [done|].
      intros [?|Hx%list_elem_of_singleton]%elem_of_app; done.
Qed.

Lemma ensure_column_index (o : text) (df : DataFrame) :
  df_index (ensure_column o df) = df_index df.
Proof. unfold ensure_column. by destruct (decide _). Qed.

Lemma ensure_column_has (o : text) (df : DataFrame) :
  _verified_field_name o ∈ df_columns (ensure_column o df).
Proof.
  unfold ensure_column. destruct (decide _) as [Hin|Hin]; [done|].
  unfold setitem. simpl. rewrite decide_False by done.
  apply elem_of_app. right. apply list_elem_of_here.
Qed.

Lemma ensure_column_columns (o : text) (df : DataFrame) :
  df_columns (ensure_column o df) =
    if decide (_verified_field_name o ∈ df_columns df) then df_columns df
    else df_columns df ++ [_verified_field_name o].
Proof.
  unfold ensure_column. destruct (decide _) as [Hin|Hin]; [done|].
  unfold setitem. simpl. by rewrite decide_False.
Qed.

Lemma loc_ensure_column (o : text) (df : DataFrame) (r : Z) (c : text) :
  loc (ensure_column o df) r c =
    if decide (c = _verified_field_name o /\
               _verified_field_name o ∉ df_columns df)
    then if decide (r ∈ df_index df) then Ok (VStr []) else Raise KeyError
    else loc df r c.
Proof.
  unfold ensure_column.
  destruct (decide (_verified_field_name o ∈ df_columns df)) as [Hin|Hin].
  - rewrite decide_False; [done|]. by intros [_ ?].
  - rewrite loc_setitem. destruct (decide (c = _verified_field_name o)).
    + rewrite (decide_True (P := c = _ /\ _)); [done | by split].
    + rewrite decide_False; [done|]. by intros [? _].
Qed.

(** The derived column is never the output field itself. *)
Lemma verified_field_name_neq (o : text) : _verified_field_name o <> o.
Proof.
  unfold _verified_field_name. intros Heq.
  apply (f_equal length) in Heq. rewrite length_app in Heq.
  vm_compute (length (str "_verified")) in Heq. lia.
Qed.

(** ** The loop over the rows *)

Section Batch.

Context `{CitationChecker}.
Variable self : Scientist.
Variable o : text.
Variable ins : list text.

Lemma row_verified_ok_inv (df : DataFrame) (r : Z) (v : value) :
  row_verified self o ins df r = Ok v ->
  r ∈ df_index df /\ o ∈ df_columns df.
Proof.
  unfold row_verified. destruct (loc df r o) as [w|e] eqn:E; [|done].
  intros _. by eapply loc_ok_inv.
Qed.

(** The loop changes no label, and no cell but the derived cells of the rows
    it was given. *)
Lemma rows_view_frame (rows : list Z) (df : DataFrame) :
  _verified_field_name o ∈ df_columns df ->
  df_index (rows_view self o ins df rows).2 = df_index df /\
  df_columns (rows_view self o ins df rows).2 = df_columns df /\
  forall r c, c <> _verified_field_name o \/ r ∉ rows ->
    loc (rows_view self o ins df rows).2 r c = loc df r c.
Proof.
  revert df. induction rows as [|r0 rs IH]; intros df Hvf; [done|].
  simpl. destruct (row_verified self o ins df r0) as [v|e] eqn:E; [|done].
  apply row_verified_ok_inv in E as [Hr0 _].
  destruct (IH (loc_set df r0 (_verified_field_name o) v)) as (Hi & Hc & Hl).
  { by rewrite loc_set_columns. }
  rewrite Hi, Hc, loc_set_index, loc_set_columns by done.
  split; [done|]. split; [done|]. intros r c Hrc.
  assert (c <> _verified_field_name o \/ r ∉ rs) as Hrc'.
  { destruct Hrc as [?|Hn]; [by left|right].
    intros Hin. apply Hn. by apply list_elem_of_further. }
  rewrite Hl, loc_loc_set by done.
  rewrite decide_False; [done|]. intros [-> ->].
  destruct Hrc as [?|Hn]; [done|]. apply Hn, list_elem_of_here.
Qed.

(** A pass that ends without an exception met only labels of the index. *)
Lemma rows_view_ok_rows (rows : list Z) (df : DataFrame) :
  _verified_field_name o ∈ df_columns df ->
  (rows_view self o ins df rows).1 = Ok tt ->
  Forall (fun r => r ∈ df_index df /\ o ∈ df_columns df) rows.
Proof.
  revert df. induction rows as [|r0 rs IH]; intros df Hvf Hok; [done|].
  simpl in Hok.
  destruct (row_verified self o ins df r0) as [v|e] eqn:E; [|done].
  apply row_verified_ok_inv in E as [Hr0 Ho].
  constructor; [done|].
  specialize (IH (loc_set df r0 (_verified_field_name o) v)).
  rewrite loc_set_index, loc_set_columns in IH by done. by apply IH.
Qed.

Lemma check_citations_ok_eq (rows : list Z) (st st1 : state) :
  check_citations self o ins rows st = (Ok tt, st1) ->
  (rows_view self o ins (ensure_column o (data st)) rows).1 = Ok tt /\
  data st1 = (rows_view self o ins (ensure_column o (data st)) rows).2.
Proof.
  intros Heq. destruct (check_citations_view self o ins rows st) as [H1 H2].
  rewrite Heq in H1, H2. by rewrite <- H1, <- H2.
Qed.

Lemma check_citations_ok_intro (rows : list Z) (st : state) :
  (rows_view self o ins (ensure_column o (data st)) rows).1 = Ok tt ->
  exists st1, check_citations self o ins rows st = (Ok tt, st1) /\
    data st1 = (rows_view self o ins (ensure_column o (data st)) rows).2.
Proof.
  intros Hok. destruct (check_citations_view self o ins rows st) as [H1 H2].
  exists (check_citations self o ins rows st).2. split; [|done].
  rewrite Hok in H1.
  destruct (check_citations self o ins rows st) as [[[]|e] st1]; done.
Qed.

(** The dataframe in which a further row is processed has the derived
    column, and processing the row is one more pass of the loop. *)
Lemma check_citations_snoc (rows : list Z) (row : Z) (st st1 : state) :
  check_citations self o ins rows st = (Ok tt, st1) ->
  _verified_field_name o ∈ df_columns (data st1) /\
  (check_citations self o ins (rows ++ [row]) st).1 =
    match row_verified self o ins (data st1) row with
    | Ok _ => Ok tt
    | Raise e => Raise e
    end /\
  data (check_citations self o ins (rows ++ [row]) st).2 =
    match row_verified self o ins (data st1) row with
    | Ok v => loc_set (data st1) row (_verified_field_name o) v
    | Raise _ => data st1
    end.
Proof.
  intros [Hok Hdf]%check_citations_ok_eq.
  destruct (rows_view_frame rows (ensure_column o (data st)))
    as (_ & Hc & _); [apply ensure_column_has|].
  split; [rewrite Hdf, Hc; apply ensure_column_has|].
  destruct (check_citations_view self o ins (rows ++ [row]) st) as [H1 H2].
  rewrite H1, H2, rows_view_app.
  destruct (rows_view self o ins (ensure_column o (data st)) rows)
    as [[[]|e] df1]; simpl in *; [|done]. subst df1.
  by destruct (row_verified self o ins (data st1) row).
Qed.

End Batch.

(** ** Two runs on dataframes with the same inputs *)

Section Agreement.

Context `{CitationChecker}.
Variable self : Scientist.
Variable o : text.
Variable ins : list text.

Lemma loc_list_ext (df df' : DataFrame) (r : Z) (fs : list text) :
  (r ∈ df_index df' <-> r ∈ df_index df) ->
  Forall (fun f => loc df' r f = loc df r f) fs ->
  loc_list df' r fs = loc_list df r fs.
Proof.
  intros Hidx. induction 1 as [|f fs Hf _ IH]; simpl.
  - destruct (decide (r ∈ df_index df')), (decide (r ∈ df_index df));
      tauto || done.
  - by rewrite Hf, IH.
Qed.

(** What is written for a row depends on the row's output and input cells
    only. *)
Lemma row_verified_ext (df df' : DataFrame) (r : Z) :
  Forall (fun f => loc df' r f = loc df r f) (o :: ins) ->
  row_verified self o ins df' r = row_verified self o ins df r.
Proof.
  intros Hall. inversion Hall as [|? ? Ho Hins]; subst.
  unfold row_verified. rewrite Ho.
  destruct (loc df r o) as [output|e] eqn:E; [|done].
  rewrite (loc_list_ext df df' r ins); [done| |done].
  apply loc_ok_inv in E as [Hin _].
  apply loc_ok_inv in Ho as [Hin' _]. tauto.
Qed.

(** Two passes over the same rows stay in step: on the cells [K] on which
    the dataframes agree at the start, and on the derived cells of the rows
    once written. *)
Lemma rows_view_agree (rs : list Z) :
  forall (K : Z -> text -> Prop) (df df' : DataFrame),
    _verified_field_name o ∈ df_columns df ->
    _verified_field_name o ∈ df_columns df' ->
    (forall r f, K r f -> loc df' r f = loc df r f) ->
    Forall (fun r => Forall (K r) (o :: ins)) rs ->
    (rows_view self o ins df rs).1 = Ok tt ->
    (rows_view self o ins df' rs).1 = Ok tt /\
    forall r f, K r f \/ (r ∈ rs /\ f = _verified_field_name o) ->
      loc (rows_view self o ins df' rs).2 r f
      = loc (rows_view self o ins df rs).2 r f.
Proof.
  induction rs as [|r0 rs IH]; intros K df df' Hvf Hvf' Hagree Hall Hok.
  - split; [done|]. intros r f [HK|[Hin _]]; [by apply Hagree|].
    by apply elem_of_nil in Hin.
  - inversion Hall as [|? ? Hr0 Hrs]; subst. simpl in *.
    assert (row_verified self o ins df' r0 = row_verified self o ins df r0)
      as Hsame.
    { apply row_verified_ext. eapply Forall_impl; [exact Hr0|].
      intros f HK. by apply Hagree. }
    rewrite Hsame.
    destruct (row_verified self o ins df r0) as [v|e] eqn:E; [|done].
    apply row_verified_ok_inv in E as [Hin _].
    apply row_verified_ok_inv in Hsame as [Hin' _].
    destruct (IH (fun r f => K r f \/ (r = r0 /\ f = _verified_field_name o))
                (loc_set df r0 (_verified_field_name o) v)
                (loc_set df' r0 (_verified_field_name o) v))
      as [Hok' Hl].
    + by rewrite loc_set_columns.
    + by rewrite loc_set_columns.
    + intros r f HK. rewrite !loc_loc_set by done.
      destruct (decide (r = r0 /\ f = _verified_field_name o)); [done|].
      destruct HK as [HK|?]; [by apply Hagree | done].
    + eapply Forall_impl; [exact Hrs|]. intros r Hr.
      eapply Forall_impl; [exact Hr|]. intros f HK. by left.
    + done.
    + split; [done|]. intros r f Hrf. apply Hl.
      destruct Hrf as [HK|[Hr ->]]; [by left; left|].
      apply elem_of_cons in Hr as [->|Hr]; [left; by right | by right].
Qed.

(** The dataframes that agree on the inputs still do once the derived
    column is there, when the first run meets no exception. *)
Lemma ensure_column_agree (rows : list Z) (df df' : DataFrame) :
  same_inputs o ins rows df df' ->
  Forall (fun r => r ∈ df_index df /\ o ∈ df_columns df) rows ->
  forall r f, r ∈ rows /\ f ∈ o :: ins ->
    loc (ensure_column o df') r f = loc (ensure_column o df) r f.
Proof.
  intros Hsame Hrows r f [Hr Hf].
  unfold same_inputs in Hsame.
  rewrite Forall_forall in Hsame. specialize (Hsame r Hr).
  rewrite Forall_forall in Hrows. destruct (Hrows r Hr) as [Hin Ho].
  assert (r ∈ df_index df') as Hin'.
  { inversion Hsame as [|? ? Hoo _]; subst.
    destruct (loc_is_ok df r o Hin Ho) as [w Hw]. rewrite Hw in Hoo.
    by apply loc_ok_inv in Hoo as [? _]. }
  rewrite Forall_forall in Hsame. specialize (Hsame f Hf).
  rewrite !loc_ensure_column.
  destruct (decide (f = _verified_field_name o /\
                    _verified_field_name o ∉ df_columns df'))
    as [[-> Hn']|Hd'];
    destruct (decide (_ /\ _verified_field_name o ∉ df_columns df))
      as [[Hfe Hn]|Hd]; try done.
  - by rewrite !decide_True.
  - exfalso. destruct (decide (_verified_field_name o ∈ df_columns df))
      as [Hc|Hc]; [|by apply Hd].
    destruct (loc_is_ok df r _ Hin Hc) as [w Hw]. rewrite Hw in Hsame.
    apply loc_ok_inv in Hsame as [_ ?]. done.
  - exfalso. subst f.
    destruct (decide (_verified_field_name o ∈ df_columns df'))
      as [Hc|Hc]; [|by apply Hd'].
    destruct (loc_is_ok df' r _ Hin' Hc) as [w Hw]. rewrite Hw in Hsame.
    symmetry in Hsame. apply loc_ok_inv in Hsame as [_ ?]. done.
Qed.

(** Two passes that both raise nothing write the same verified cell for every
    row of [same], the rows in which the dataframes agree on the inputs,
    whatever they hold in the other rows. [done] are the rows already
    processed. *)
Lemma rows_view_agree_on (same : list Z) (rs : list Z) :
  forall (done : list Z) (df df' : DataFrame),
    _verified_field_name o ∈ df_columns df ->
    _verified_field_name o ∈ df_columns df' ->
    (forall r f, r ∈ same ->
       f ∈ o :: ins \/ (f = _verified_field_name o /\ r ∈ done) ->
       loc df' r f = loc df r f) ->
    (rows_view self o ins df rs).1 = Ok tt ->
    (rows_view self o ins df' rs).1 = Ok tt ->
    forall r f, r ∈ same ->
      f ∈ o :: ins \/ (f = _verified_field_name o /\ r ∈ done ++ rs) ->
      loc (rows_view self o ins df' rs).2 r f
      = loc (rows_view self o ins df rs).2 r f.
Proof.
  induction rs as [|r0 rs IH]; intros done df df' Hvf Hvf' Hagree Hok Hok'.
  - simpl. intros r f Hr Hf. apply Hagree; [done|].
    by rewrite app_nil_r in Hf.
  - simpl in *.
    destruct (row_verified self o ins df r0) as [v|e] eqn:E; [|done].
    destruct (row_verified self o ins df' r0) as [v'|e'] eqn:E'; [|done].
    pose proof (row_verified_ok_inv self o ins _ _ _ E) as [Hin _].
    pose proof (row_verified_ok_inv self o ins _ _ _ E') as [Hin' _].
    intros r f Hr Hf.
    apply (IH (done ++ [r0])); try done.
    + by rewrite loc_set_columns.
    + by rewrite loc_set_columns.
    + clear r f Hr Hf. intros r f Hr Hf. rewrite !loc_loc_set by done.
      destruct (decide (r = r0 /\ f = _verified_field_name o)) as [[-> ->]|Hn].
      * assert (row_verified self o ins df' r0 = row_verified self o ins df r0)
          as Hsame.
        { apply row_verified_ext. apply Forall_forall. intros f Hf'.
          apply Hagree; [done | by left]. }
        rewrite E, E' in Hsame. by injection Hsame as ->.
      * apply Hagree; [done|].
        destruct Hf as [?|[-> Hdone]]; [by left|right]. split; [done|].
        apply elem_of_app in Hdone as [?|Hx%list_elem_of_singleton]; [done|].
        by destruct Hn.
    + destruct Hf as [?|[-> Hdone]]; [by left|right]. split; [done|].
      by rewrite <- app_assoc.
Qed.

(** Two runs that both raise nothing leave the same verified cell in every
    given row in which the dataframes hold the same inputs. *)
Lemma check_citations_same_row_inputs (rows same : list Z)
    (st st' st1 st1' : state) :
  check_citations self o ins rows st = (Ok tt, st1) ->
  check_citations self o ins rows st' = (Ok tt, st1') ->
  same_inputs o ins same (data st) (data st') ->
  Forall (fun r => r ∈ rows ->
                   loc (data st1') r (_verified_field_name o)
                   = loc (data st1) r (_verified_field_name o)) same.
Proof.
  intros [Hok Hdf]%check_citations_ok_eq [Hok' Hdf']%check_citations_ok_eq
    Hsame.
  pose proof (rows_view_ok_rows self o ins rows _
                (ensure_column_has o (data st)) Hok) as Hrows.
  set (both := filter (fun r => r ∈ rows) same).
  assert (same_inputs o ins both (data st) (data st')) as Hboth.
  { unfold same_inputs, both. apply Forall_forall.
    intros r [_ Hr]%list_elem_of_filter. unfold same_inputs in Hsame.
    rewrite Forall_forall in Hsame. by apply Hsame. }
  assert (Forall
            (fun r => r ∈ df_index (data st) /\ o ∈ df_columns (data st))
            both) as Hidx.
  { apply Forall_forall. intros r [Hr _]%list_elem_of_filter.
    rewrite Forall_forall in Hrows. destruct (Hrows r Hr) as [Hi Ho].
    rewrite ensure_column_index in Hi. split; [done|].
    rewrite ensure_column_columns in Ho.
    destruct (decide (_ ∈ df_columns (data st))); [done|].
    apply elem_of_app in Ho as [?|Ho%list_elem_of_singleton]; [done|].
    by destruct (verified_field_name_neq o). }
  apply Forall_forall. intros r Hr Hin. rewrite Hdf, Hdf'.
  apply (rows_view_agree_on both rows []); try done;
    try apply ensure_column_has.
  - intros r' f Hr' [Hf|[_ Hnil]]; [|by apply elem_of_nil in Hnil].
    by apply (ensure_column_agree both).
  - apply list_elem_of_filter. by split.
  - right. by split.
Qed.

(** A run on a dataframe with the same inputs as one on which the run meets
    no exception meets none either, and writes the same verified cells. *)
Lemma check_citations_same_inputs (rows : list Z) (st st' st1 : state) :
  same_inputs o ins rows (data st) (data st') ->
  check_citations self o ins rows st = (Ok tt, st1) ->
  exists st1', check_citations self o ins rows st' = (Ok tt, st1') /\
    Forall (fun r => loc (data st1') r (_verified_field_name o)
                     = loc (data st1) r (_verified_field_name o)) rows.
Proof.
  intros Hsame [Hok Hdf]%check_citations_ok_eq.
  pose proof (rows_view_ok_rows self o ins rows _
                (ensure_column_has o (data st)) Hok) as Hrows.
  assert (Forall
            (fun r => r ∈ df_index (data st) /\ o ∈ df_columns (data st))
            rows) as Hrows'.
  { eapply Forall_impl; [exact Hrows|]. intros r [Hr Ho].
    rewrite ensure_column_index in Hr. split; [done|].
    rewrite ensure_column_columns in Ho.
    destruct (decide (_ ∈ df_columns (data st))); [done|].
    apply elem_of_app in Ho as [?|Ho%list_elem_of_singleton]; [done|].
    by destruct (verified_field_name_neq o). }
  destruct (rows_view_agree rows (fun r f => r ∈ rows /\ f ∈ o :: ins)
              (ensure_column o (data st)) (ensure_column o (data st')))
    as [Hok' Hl]; try apply ensure_column_has; try done.
  - by apply ensure_column_agree.
  - apply Forall_forall. intros r Hr. apply Forall_forall. by intros f Hf.
  - destruct (check_citations_ok_intro self o ins rows st' Hok')
      as (st1' & Heq & Hdf').
    exists st1'. split; [done|]. apply Forall_forall. intros r Hr.
    rewrite Hdf, Hdf'. apply Hl. by right.
Qed.

End Agreement.

(** ** One more row *)

Lemma for_each_app {A} (xs ys : list A) (body : A -> M unit) (st : state) :
  for_each (xs ++ ys) body st =
    match for_each xs body st with
    | (Ok _, st1) => for_each ys body st1
    | (Raise e, st1) => (Raise e, st1)
    end.
Proof.
  revert st. induction xs as [|x xs IH]; intros st; [done|].
  simpl. unfold mbind, M_bind.
  destruct (body x st) as [[[]|e] st1]; [apply IH | done].
Qed.

Lemma replace_first_once (old new s : text) :
  old <> [] -> occurrences old s <= 1 ->
  replace old new s = replace_first old new s.
Proof.
  intros Hold. destruct old as [|a old']; [done|]. unfold replace.
  induction s as [|c s IH]; [done|].
  rewrite occurrences_cons, replace_from_cons. simpl replace_first.
  change ((a =? c)%N && startswith old' s)
    with (startswith (a :: old') (c :: s)).
  destruct (startswith (a :: old') (c :: s)); intros Hocc.
  - f_equal. simpl. rewrite Nat.sub_0_r. apply replace_from_absent.
    pose proof (occurrences_app_le (a :: old') (take (length old') s)
                  (drop (length old') s)) as Hle.
    rewrite take_drop in Hle. lia.
  - f_equal. apply IH. lia.
Qed.

Section Rows.

Context `{CitationChecker}.
Variable self : Scientist.
Variable o : text.
Variable ins : list text.

(** The rows after a prefix are processed from the state the prefix leaves,
    when the prefix raises nothing. *)
Lemma check_citations_app (rows rest : list Z) (st : state) :
  check_citations self o ins (rows ++ rest) st =
    match check_citations self o ins rows st with
    | (Ok _, st1) => for_each rest (check_row self o ins) st1
    | (Raise e, st1) => (Raise e, st1)
    end.
Proof.
  unfold check_citations, mbind, M_bind, get_data, put_data, mret, M_ret.
  destruct (decide (_verified_field_name o ∈ df_columns (data st)));
    apply for_each_app.
Qed.

(** A row whose output cell and input cells are strings, reached without an
    exception: the derived cell receives the verified text. *)
Lemma check_citations_row (rows : list Z) (row : Z) (st st1 : state)
    (out : text) (cits : list text) (vals : list text) :
  check_citations self o ins rows st = (Ok tt, st1) ->
  loc (data st1) row o = Ok (VStr out) ->
  extract_citations (VStr out) = Ok cits ->
  loc_list (data st1) row ins = Ok (VStr <$> vals) ->
  exists st2,
    check_citations self o ins (rows ++ [row]) st = (Ok tt, st2) /\
    loc (data st2) row (_verified_field_name o)
      = Ok (VStr (verified_text self (reference_text vals) cits out)).
Proof.
  intros Hrun Hout Hcits Hins.
  destruct (check_citations_snoc self o ins rows row st st1 Hrun)
    as (Hvf & H1 & H2).
  assert (row_verified self o ins (data st1) row
          = Ok (VStr (verified_text self (reference_text vals) cits out)))
    as Hrv.
  { unfold row_verified.
    by rewrite Hout, Hcits, Hins, str_join_strings, verify_value_str. }
  rewrite Hrv in H1, H2.
  exists (check_citations self o ins (rows ++ [row]) st).2. split.
  - destruct (check_citations self o ins (rows ++ [row]) st) as [r st2].
    simpl in *. by rewrite H1.
  - rewrite H2. apply loc_ok_inv in Hout as [Hrow _].
    rewrite loc_loc_set by done. by rewrite decide_True.
Qed.

(** Citations that each occur exactly once when their turn comes are
    replaced where they stand. *)
Lemma verified_text_isolated (it : text) (parts : list (text * text))
    (pre : text) :
  isolated (replacement self it) pre parts = true ->
  verified_text self it parts.*1 (pre ++ assemble parts)
  = pre ++ assemble (prod_map (replacement self it) id <$> parts).
Proof.
  revert pre. induction parts as [|[c seg] ps IH]; intros pre; [done|].
  simpl. intros [[Hc Hocc]%andb_prop Hiso]%andb_prop.
  apply negb_true_iff, bool_decide_eq_false in Hc.
  apply Nat.eqb_eq in Hocc.
  unfold verified_text in *. simpl.
  rewrite replace_once by done.
  specialize (IH (pre ++ replacement self it c ++ seg) Hiso).
  rewrite <- !app_assoc in IH. exact IH.
Qed.

(** Citations that each occur at most once when their turn comes are
    replaced at their first occurrence. *)
Lemma verified_text_at_most_once (it : text) (cits : list text) (v : text) :
  at_most_once (replacement self it) cits v = true ->
  verified_text self it cits v
  = verified_text_first_occurrence (replacement self it) cits v.
Proof.
  revert v. induction cits as [|c cs IH]; intros v; [done|].
  simpl. intros [[Hc Hocc]%andb_prop Hrest]%andb_prop.
  apply negb_true_iff, bool_decide_eq_false in Hc.
  apply Nat.leb_le in Hocc.
  unfold verified_text, verified_text_first_occurrence in *. simpl.
  rewrite <- (replace_first_once c _ v) by done. by apply IH.
Qed.

End Rows.

(** ** What a run leaves as it was *)

Section Frame.

Context `{CitationChecker}.
Variable self : Scientist.
Variable o : text.
Variable ins : list text.

(** A run, whatever its outcome, changes the dataframe of lines 569-570 in
    the derived cells of the given rows only. *)
Lemma check_citations_frame_view (rows : list Z) (st : state) :
  df_index (data (check_citations self o ins rows st).2)
    = df_index (data st) /\
  df_columns (data (check_citations self o ins rows st).2)
    = df_columns (ensure_column o (data st)) /\
  forall r c, c <> _verified_field_name o \/ r ∉ rows ->
    loc (data (check_citations self o ins rows st).2) r c
    = loc (ensure_column o (data st)) r c.
Proof.
  destruct (check_citations_view self o ins rows st) as [_ ->].
  destruct (rows_view_frame self o ins rows (ensure_column o (data st)))
    as (Hi & Hc & Hl); [apply ensure_column_has|].
  by rewrite Hi, ensure_column_index.
Qed.

(** A run that does not read the derived column leaves its inputs as they
    were. *)
Lemma check_citations_keeps_inputs (rows : list Z) (st : state) :
  _verified_field_name o ∉ ins ->
  same_inputs o ins rows (data st)
    (data (check_citations self o ins rows st).2).
Proof.
  intros Hnot. destruct (check_citations_frame_view rows st) as (_ & _ & Hl).
  apply Forall_forall. intros r _. apply Forall_forall. intros f Hf.
  assert (f <> _verified_field_name o) as Hne.
  { intros ->. apply elem_of_cons in Hf as [Hf|Hf]; [|done].
    by destruct (verified_field_name_neq o). }
  rewrite Hl by (by left). rewrite loc_ensure_column.
  rewrite decide_False; [done|]. by intros [? _].
Qed.

(** A row label that the index does not hold ends the run with an exception;
    when the rows before it raise nothing, the exception is the [KeyError] of
    line 572, and the dataframe is as those rows left it. *)
Lemma check_citations_missing_label (pre post : list Z) (r : Z) (st : state) :
  r ∉ df_index (data st) ->
  (exists e, (check_citations self o ins (pre ++ r :: post) st).1 = Raise e) /\
  forall st1, check_citations self o ins pre st = (Ok tt, st1) ->
    (check_citations self o ins (pre ++ r :: post) st).1 = Raise KeyError /\
    data (check_citations self o ins (pre ++ r :: post) st).2 = data st1.
Proof.
  intros Hr.
  destruct (check_citations_view self o ins (pre ++ r :: post) st) as [-> ->].
  rewrite rows_view_app.
  destruct (check_citations_view self o ins pre st) as [H1 H2].
  destruct (rows_view_frame self o ins pre (ensure_column o (data st)))
    as (Hi & _ & _); [apply ensure_column_has|].
  rewrite ensure_column_index in Hi.
  destruct (rows_view self o ins (ensure_column o (data st)) pre)
    as [[[]|e] df1]; simpl in *.
  - unfold row_verified, loc. rewrite decide_False by (by rewrite Hi).
    split; [by exists KeyError|]. intros st1 Heq.
    rewrite Heq in H2. simpl in H2. by subst df1.
  - split; [by exists e|]. intros st1 Heq. rewrite Heq in H1. done.
Qed.

End Frame.

(** ** The edit distance and the matcher *)

Section Matcher.

Import citation_checker.

Lemma levenshtein_nil_r (s : text) : levenshtein s [] = length s.
Proof. by destruct s. Qed.

Lemma levenshtein_cons (a b : char) (s t : text) :
  levenshtein (a :: s) (b :: t) =
    Nat.min
      (Nat.min (S (levenshtein s (b :: t))) (S (levenshtein (a :: s) t)))
      ((if (a =? b)%N then 0 else 1) + levenshtein s t).
Proof. reflexivity. Qed.

(** The distance is reached by a sequence of edits. *)
Lemma levenshtein_edit (s t : text) : edit s t (levenshtein s t).
Proof.
  revert t. induction s as [|a s IHs]; intros t.
  - induction t as [|b t IHt]; [constructor|].
    simpl. by apply edit_insert.
  - induction t as [|b t IHt].
    + rewrite levenshtein_nil_r. simpl. apply edit_delete.
      specialize (IHs []). by rewrite levenshtein_nil_r in IHs.
    + rewrite levenshtein_cons.
      destruct (Nat.min_spec
                  (Nat.min (S (levenshtein s (b :: t)))
                     (S (levenshtein (a :: s) t)))
                  ((if (a =? b)%N then 0 else 1) + levenshtein s t))
        as [[_ ->]|[_ ->]].
      * destruct (Nat.min_spec (S (levenshtein s (b :: t)))
                    (S (levenshtein (a :: s) t))) as [[_ ->]|[_ ->]].
        -- apply edit_delete, IHs.
        -- apply edit_insert, IHt.
      * destruct (a =? b)%N eqn:Hab.
        -- apply N.eqb_eq in Hab as ->. apply edit_keep, IHs.
        -- apply edit_substitute, IHs.
Qed.

(** No sequence of edits is shorter than the distance. *)
Lemma levenshtein_le (s t : text) (n : nat) :
  edit s t n -> levenshtein s t <= n.
Proof.
  induction 1 as [|c s t n _ IH|a b s t n _ IH|a s t n _ IH|b s t n _ IH].
  - done.
  - rewrite levenshtein_cons, N.eqb_refl. lia.
  - rewrite levenshtein_cons. destruct (a =? b)%N; lia.
  - destruct t as [|b t].
    + rewrite levenshtein_nil_r in *. simpl. lia.
    + rewrite levenshtein_cons. lia.
  - destruct s as [|a s].
    + simpl in *. lia.
    + rewrite levenshtein_cons. lia.
Qed.

Lemma levenshtein_refl (s : text) : levenshtein s s = 0.
Proof.
  induction s as [|a s IH]; [done|].
  rewrite levenshtein_cons, N.eqb_refl, IH. lia.
Qed.

Lemma levenshtein_zero (s t : text) : levenshtein s t = 0 -> s = t.
Proof.
  revert t. induction s as [|a s IH]; intros [|b t]; try done.
  rewrite levenshtein_cons. intros Hz.
  destruct (a =? b)%N eqn:Hab; [|lia].
  apply N.eqb_eq in Hab as ->. f_equal. apply IH. lia.
Qed.

(** A needle that is not empty is within its length of any one character. *)
Lemma levenshtein_single (a h : char) (s : text) :
  levenshtein (a :: s) [h] <= length (a :: s).
Proof.
  apply levenshtein_le. simpl. apply edit_substitute.
  induction s as [|c s IH]; [constructor|]. simpl. by apply edit_delete.
Qed.

Lemma prefixes_spec (m s : text) :
  m ∈ prefixes s <-> m <> [] /\ exists post, s = m ++ post.
Proof.
  revert m. induction s as [|c s IH]; intros m; simpl.
  - split; [by intros ?%elem_of_nil|].
    intros [Hm [post Hp]]. by destruct m.
  - rewrite elem_of_cons, list_elem_of_fmap. split.
    + intros [->|(p & -> & Hp)].
      * split; [done|]. by exists s.
      * apply IH in Hp as [_ [post ->]]. split; [done|]. by exists post.
    + intros [Hm [post Hp]]. destruct m as [|a m]; [done|].
      injection Hp as <- ->. destruct m as [|b m]; [by left|right].
      exists (b :: m). split; [done|]. apply IH. split; [done|]. by exists post.
Qed.

(** The candidates are the substrings that are not empty. *)
Lemma candidates_spec (m h : text) :
  m ∈ candidates h <-> m <> [] /\ substring m h.
Proof.
  induction h as [|c h IH].
  - simpl. split; [by intros ?%elem_of_nil|].
    intros [Hm (pre & post & Hp)]. symmetry in Hp.
    apply app_eq_nil in Hp as [_ Hp]. apply app_eq_nil in Hp as [? _]. done.
  - change (candidates (c :: h)) with (prefixes (c :: h) ++ candidates h).
    rewrite elem_of_app, prefixes_spec, IH. split.
    + intros [[Hm [post Hp]]|[Hm (pre & post & Hp)]]; (split; [done|]).
      * by exists [], post.
      * exists (c :: pre), post. by rewrite Hp.
    + intros [Hm (pre & post & Hp)]. destruct pre as [|a pre].
      * left. split; [done|]. by exists post.
      * right. split; [done|]. injection Hp as _ ->. by exists pre, post.
Qed.

(** The search keeps a candidate with its distance, and none is closer. *)
Lemma fold_closer (x : text) (cands : list text) (best : option (text * nat)) :
  (forall b d, best = Some (b, d) -> d = levenshtein x b) ->
  match fold_left (closer x) cands best with
  | None => cands = [] /\ best = None
  | Some (m, d) =>
      d = levenshtein x m /\
      (m ∈ cands \/ best = Some (m, d)) /\
      (forall m', m' ∈ cands -> d <= levenshtein x m') /\
      (forall b db, best = Some (b, db) -> d <= db)
  end.
Proof.
  revert best. induction cands as [|c cs IH]; intros best Hbest.
  - simpl. destruct best as [[b d]|]; [|done].
    split; [by apply Hbest|]. split; [by right|].
    split; [by intros ? ?%elem_of_nil|]. by intros ? ? [= _ ->].
  - simpl. specialize (IH (closer x best c)).
    assert (forall b d, closer x best c = Some (b, d) -> d = levenshtein x b)
      as Hstep.
    { intros b d. unfold closer. destruct best as [[b0 d0]|].
      - destruct (levenshtein x c <? d0); [by intros [= <- <-]|].
        apply Hbest.
      - by intros [= <- <-]. }
    specialize (IH Hstep).
    destruct (fold_left (closer x) cs (closer x best c)) as [[m d]|].
    + destruct IH as (Hd & Hm & Hmin & Hle). split; [done|].
      assert (d <= levenshtein x c /\
              forall b db, best = Some (b, db) -> d <= db) as [Hc Hb].
      { unfold closer in Hle. destruct best as [[b0 d0]|].
        - destruct (levenshtein x c <? d0) eqn:Hlt.
          + apply Nat.ltb_lt in Hlt.
            specialize (Hle _ _ eq_refl). split; [done|].
            intros ? ? [= _ <-]. lia.
          + apply Nat.ltb_ge in Hlt.
            specialize (Hle _ _ eq_refl). split; [lia|].
            by intros ? ? [= _ <-].
        - specialize (Hle _ _ eq_refl). split; [done|]. done. }
      split; [|split; [|done]].
      * destruct Hm as [Hm|Hm]; [left; by apply list_elem_of_further|].
        unfold closer in Hm. destruct best as [[b0 d0]|].
        -- destruct (levenshtein x c <? d0).
           ++ injection Hm as <- _. left. apply list_elem_of_here.
           ++ by right.
        -- injection Hm as <- _. left. apply list_elem_of_here.
      * intros m' [->|Hin]%elem_of_cons; [done | by apply Hmin].
    + destruct IH as [_ Hnone]. unfold closer in Hnone.
      destruct best as [[b0 d0]|]; [|done].
      by destruct (levenshtein x c <? d0).
Qed.

Lemma closest_spec (x h : text) :
  match closest x h with
  | None => h = []
  | Some (m, d) =>
      d = levenshtein x m /\ m <> [] /\ substring m h /\
      (forall m', m' <> [] -> substring m' h -> d <= levenshtein x m')
  end.
Proof.
  unfold closest. pose proof (fold_closer x (candidates h) None) as Hf.
  destruct (fold_left (closer x) (candidates h) None) as [[m d]|].
  - destruct Hf as (Hd & [Hm|?] & Hmin & _); [done| |done].
    apply candidates_spec in Hm as [Hm Hsub].
    repeat split; try done.
    intros m' Hm' Hsub'. apply Hmin, candidates_spec. by split.
  - destruct Hf as [Hnil _]; [done|]. destruct h as [|c h]; [done|].
    simpl in Hnil. done.
Qed.

(** A match is a substring, its distance is the Levenshtein distance, within
    the budget, and no substring is closer. *)
Lemma fuzzy_find_found (x h : text) (d : nat) (m : text) (dist : nat) :
  fuzzy_find_in_text x h d = Some (m, dist) ->
  substring m h /\ dist = levenshtein x m /\ dist <= d /\
  forall m', substring m' h -> dist <= levenshtein x m'.
Proof.
  unfold fuzzy_find_in_text. destruct x as [|a x].
  - intros [= <- <-]. split; [by exists [], h|]. split; [done|].
    split; lia.
  - pose proof (closest_spec (a :: x) h) as Hc.
    destruct (closest (a :: x) h) as [[m0 d0]|]; [|done].
    destruct (d0 <=? d) eqn:Hle; [|done]. intros [= -> ->].
    apply Nat.leb_le in Hle. destruct Hc as (Hd & Hm & Hsub & Hmin).
    repeat split; try done. intros m' Hsub'.
    destruct m' as [|b m']; [|by apply Hmin].
    rewrite levenshtein_nil_r.
    destruct Hsub as (pre & post & ->).
    destruct (pre ++ m ++ post) as [|c rest] eqn:E.
    { apply app_eq_nil in E as [_ E]. apply app_eq_nil in E as [? _]. done. }
    etrans; [apply (Hmin [c]); [done | by exists [], rest]|].
    apply levenshtein_single.
Qed.

(** Where every substring is beyond the budget, there is no match. *)
Lemma fuzzy_find_not_found (x h : text) (d : nat) :
  (forall m, substring m h -> d < levenshtein x m) ->
  fuzzy_find_in_text x h d = None.
Proof.
  intros Hfar. unfold fuzzy_find_in_text. destruct x as [|a x].
  - specialize (Hfar [] (ex_intro _ [] (ex_intro _ h eq_refl))).
    simpl in Hfar. lia.
  - pose proof (closest_spec (a :: x) h) as Hc.
    destruct (closest (a :: x) h) as [[m0 d0]|]; [|done].
    destruct Hc as (Hd & _ & Hsub & _). specialize (Hfar m0 Hsub).
    destruct (d0 <=? d) eqn:Hle; [|done]. apply Nat.leb_le in Hle. lia.
Qed.

(** A needle that occurs verbatim is matched by itself at distance 0. *)
Lemma fuzzy_find_exact (x h : text) (d : nat) :
  substring x h -> fuzzy_find_in_text x h d = Some (x, 0).
Proof.
  intros Hsub. unfold fuzzy_find_in_text. destruct x as [|a x]; [done|].
  pose proof (closest_spec (a :: x) h) as Hc.
  destruct (closest (a :: x) h) as [[m0 d0]|].
  - destruct Hc as (Hd & _ & _ & Hmin).
    specialize (Hmin (a :: x)). rewrite levenshtein_refl in Hmin.
    assert (d0 = 0) as -> by (apply Nat.le_0_r, Hmin; done).
    symmetry in Hd. apply levenshtein_zero in Hd as <-. done.
  - subst h. destruct Hsub as (pre & post & Hp). symmetry in Hp.
    apply app_eq_nil in Hp as [_ Hp]. apply app_eq_nil in Hp as [? _]. done.
Qed.

(** The Levenshtein distance to the closest substring is the least number
    of edits. *)
Lemma min_edit_distance_levenshtein (x h m : text) :
  substring m h ->
  (forall m', substring m' h -> levenshtein x m <= levenshtein x m') ->
  min_edit_distance x h (levenshtein x m).
Proof.
  intros Hsub Hmin. split.
  - exists m. split; [done | apply levenshtein_edit].
  - intros m' k Hsub' Hedit. etrans; [by apply Hmin|].
    by apply levenshtein_le.
Qed.

Lemma min_edit_distance_unique (x h : text) (n n' : nat) :
  min_edit_distance x h n -> min_edit_distance x h n' -> n = n'.
Proof.
  intros [(m & Hs & He) Hmin] [(m' & Hs' & He') Hmin'].
  apply Nat.le_antisymm; eauto.
Qed.

End Matcher.

(** ** The claims *)

(** The text outside the quotes is rewritten when it holds the citation: in
    [a "a"] checked against the source [b], the [a] at offset 0 is no part of
    a citation, and the verified text is [b "b"]. *)
Lemma repeated_citation_changes_other_text :
  let out := str "a " ++ quoted (str "a") in
  let run :=
    check_citations (H := citation_checker_spec) default_scientist ANSWER
      [SOURCE] [0%Z] (initial frame_repeat) in
  loc frame_repeat 0 ANSWER = Ok (VStr out) /\
  citation_checker.extract_citations (VStr out) = Ok [str "a"] /\
  run.1 = Ok tt /\
  loc (data run.2) 0 (_verified_field_name ANSWER)
    = Ok (VStr (str "b " ++ quoted (str "b"))) /\
  ~ exists r, loc (data run.2) 0 (_verified_field_name ANSWER)
              = Ok (VStr (str "a " ++ quoted r)).
Proof.
  repeat split; try (vm_compute; reflexivity).
  intros [r Hr]. vm_compute in Hr. discriminate Hr.
Qed.

(** C1 (amended). For every row processed by [check_citations] whose output
    text is [pre] followed by the extracted citations, each with the text
    after it, and in which every citation is non-empty and occurs exactly once
    in the text as it stands when the citation is substituted: the verified
    text is [pre] followed by the replacements in the same number and order,
    each with the same text after it. *)
Theorem check_citations_isolated_citations `{CitationChecker}
    (self : Scientist) (o : text) (ins : list text) (rows : list Z) (row : Z)
    (st st1 : state) (pre : text) (parts : list (text * text))
    (vals : list text) :
  check_citations self o ins rows st = (Ok tt, st1) ->
  loc (data st1) row o = Ok (VStr (pre ++ assemble parts)) ->
  extract_citations (VStr (pre ++ assemble parts)) = Ok parts.*1 ->
  loc_list (data st1) row ins = Ok (VStr <$> vals) ->
  isolated (replacement self (reference_text vals)) pre parts = true ->
  exists st2,
    check_citations self o ins (rows ++ [row]) st = (Ok tt, st2) /\
    loc (data st2) row (_verified_field_name o)
      = Ok (VStr (pre ++ assemble
                    (prod_map (replacement self (reference_text vals)) id
                       <$> parts))).
Proof.
  intros Hrun Hout Hcits Hins Hiso.
  destruct (check_citations_row self o ins rows row st st1 _ _ _
              Hrun Hout Hcits Hins) as (st2 & Hrun2 & Hloc).
  exists st2. split; [done|].
  by rewrite Hloc, verified_text_isolated.
Qed.

(** One citation, one character away from the source, in a text that holds
    it once. *)
Lemma check_citations_isolated_citations_witness :
  exists st2,
    check_citations (H := citation_checker_spec) default_scientist ANSWER
      [SOURCE] ([] ++ [0%Z]) (initial frame_near) = (Ok tt, st2) /\
    loc (data st2) 0 (_verified_field_name ANSWER)
      = Ok (VStr ((str "x " ++ [dquote]) ++
                  assemble
                    (prod_map
                       (replacement (H := citation_checker_spec)
                          default_scientist (reference_text [str "abd"])) id
                       <$> [(str "abc", dquote :: str " y")]))).
Proof.
  apply (check_citations_isolated_citations (H := citation_checker_spec)
           default_scientist ANSWER [SOURCE] [] 0 (initial frame_near)
           (initial (ensure_column ANSWER frame_near)));
    vm_compute; reflexivity.
Defined.

(** A substitution of the first occurrence leaves the second [a] of
    ["a" a] alone; the driver rewrites both. *)
Lemma replace_is_not_first_occurrence :
  let out := quoted (str "a") ++ str " a" in
  let run :=
    check_citations (H := citation_checker_spec) default_scientist ANSWER
      [SOURCE] [0%Z] (initial frame_repeat_after) in
  loc frame_repeat_after 0 ANSWER = Ok (VStr out) /\
  loc_list frame_repeat_after 0 [SOURCE] = Ok [VStr (str "b")] /\
  citation_checker.extract_citations (VStr out) = Ok [str "a"] /\
  verified_text_first_occurrence
    (replacement (H := citation_checker_spec) default_scientist
       (reference_text [str "b"])) [str "a"] out
    = quoted (str "b") ++ str " a" /\
  loc (data run.2) 0 (_verified_field_name ANSWER)
    = Ok (VStr (quoted (str "b") ++ str " b")) /\
  loc (data run.2) 0 (_verified_field_name ANSWER)
    <> Ok (VStr (verified_text_first_occurrence
                   (replacement (H := citation_checker_spec) default_scientist
                      (reference_text [str "b"])) [str "a"] out)).
Proof.
  repeat split; try (vm_compute; reflexivity).
  vm_compute. discriminate.
Qed.

(** C2 (amended). For every row processed by [check_citations] the reference
    text is the row's input-field values with a blank line between them, the
    citations are extracted from the row's output field, and each citation in
    extraction order is substituted by [str.replace], that is at every
    occurrence of its inner text, by the matched substring or the marker;
    where each citation occurs at most once at its turn, this is the
    substitution of the first occurrence. *)
Theorem check_citations_replaces_every_occurrence `{CitationChecker}
    (self : Scientist) (o : text) (ins : list text) (rows : list Z) (row : Z)
    (st st1 : state) (out : text) (cits : list text) (vals : list text) :
  check_citations self o ins rows st = (Ok tt, st1) ->
  loc (data st1) row o = Ok (VStr out) ->
  extract_citations (VStr out) = Ok cits ->
  loc_list (data st1) row ins = Ok (VStr <$> vals) ->
  exists st2,
    check_citations self o ins (rows ++ [row]) st = (Ok tt, st2) /\
    loc (data st2) row (_verified_field_name o)
      = Ok (VStr (fold_left
                    (fun v c =>
                       replace c (replacement self (reference_text vals) c) v)
                    cits out)) /\
    (at_most_once (replacement self (reference_text vals)) cits out = true ->
     loc (data st2) row (_verified_field_name o)
       = Ok (VStr (verified_text_first_occurrence
                     (replacement self (reference_text vals)) cits out))).
Proof.
  intros Hrun Hout Hcits Hins.
  destruct (check_citations_row self o ins rows row st st1 _ _ _
              Hrun Hout Hcits Hins) as (st2 & Hrun2 & Hloc).
  exists st2. split; [done|]. split; [done|].
  intros Honce. by rewrite Hloc, verified_text_at_most_once.
Qed.

(** A citation that occurs once: both substitutions give the same text. *)
Lemma check_citations_replaces_every_occurrence_witness :
  exists st2,
    check_citations (H := citation_checker_spec) default_scientist ANSWER
      [SOURCE] ([] ++ [0%Z]) (initial frame_near) = (Ok tt, st2) /\
    loc (data st2) 0 (_verified_field_name ANSWER)
      = Ok (VStr (fold_left
                    (fun v c =>
                       replace c
                         (replacement (H := citation_checker_spec)
                            default_scientist (reference_text [str "abd"]) c)
                         v)
                    [str "abc"] (str "x " ++ quoted (str "abc") ++ str " y")))
    /\
    loc (data st2) 0 (_verified_field_name ANSWER)
      = Ok (VStr (verified_text_first_occurrence
                    (replacement (H := citation_checker_spec)
                       default_scientist (reference_text [str "abd"]))
                    [str "abc"] (str "x " ++ quoted (str "abc") ++ str " y"))).
Proof.
  destruct (check_citations_replaces_every_occurrence
              (H := citation_checker_spec) default_scientist ANSWER [SOURCE]
              [] 0 (initial frame_near)
              (initial (ensure_column ANSWER frame_near))
              (str "x " ++ quoted (str "abc") ++ str " y") [str "abc"]
              [str "abd"])
    as (st2 & Hrun & Hall & Hfirst); [vm_compute; reflexivity ..|].
  exists st2. split; [exact Hrun|]. split; [exact Hall|].
  apply Hfirst. vm_compute. reflexivity.
Defined.

(** C3. For every needle [x], haystack [h] and budget [d], the matcher
    answers [Some (m, dist)] only when [m] is a substring of [h], [dist] edits
    turn [x] into [m], [dist] is the least number of edits between [x] and any
    substring of [h], and [dist <= d]; it answers [None] when that least
    number exceeds [d]; and it answers [Some (x, 0)] whenever [x] occurs
    verbatim in [h]. *)
Theorem fuzzy_find_in_text_minimal (x h : text) (d : nat) :
  (forall m dist,
     citation_checker.fuzzy_find_in_text x h d = Some (m, dist) ->
     substring m h /\ edit x m dist /\ min_edit_distance x h dist /\ dist <= d)
  /\
  (forall n, min_edit_distance x h n -> d < n ->
     citation_checker.fuzzy_find_in_text x h d = None) /\
  (substring x h -> citation_checker.fuzzy_find_in_text x h d = Some (x, 0)).
Proof.
  split; [|split].
  - intros m dist (Hsub & -> & Hle & Hmin)%fuzzy_find_found.
    split; [done|]. split; [apply levenshtein_edit|].
    split; [by apply min_edit_distance_levenshtein | done].
  - intros n [_ Hmin] Hlt. apply fuzzy_find_not_found.
    intros m Hsub. eapply Nat.lt_le_trans; [exact Hlt|].
    apply (Hmin m); [done | apply levenshtein_edit].
  - apply fuzzy_find_exact.
Qed.

(** A needle one edit away from a substring, a needle beyond the budget, and
    a needle that occurs verbatim. *)
Lemma fuzzy_find_in_text_minimal_witness :
  min_edit_distance (str "abc") (str "xxabdcxx") 1 /\
  citation_checker.fuzzy_find_in_text (str "abc") (str "zzzzz") 2 = None /\
  citation_checker.fuzzy_find_in_text (str "abc") (str "xxabcxx") 0
    = Some (str "abc", 0).
Proof.
  split; [|split].
  - destruct (fuzzy_find_in_text_minimal (str "abc") (str "xxabdcxx") 30)
      as [Hfound _].
    destruct (Hfound (str "ab") 1) as (_ & _ & Hmin & _);
      [vm_compute; reflexivity | exact Hmin].
  - destruct (fuzzy_find_in_text_minimal (str "abc") (str "zzzzz") 30)
      as [Hfound _].
    destruct (Hfound (str "z") 3) as (_ & _ & Hmin & _);
      [vm_compute; reflexivity|].
    destruct (fuzzy_find_in_text_minimal (str "abc") (str "zzzzz") 2)
      as (_ & Hnone & _).
    apply (Hnone 3 Hmin). lia.
  - destruct (fuzzy_find_in_text_minimal (str "abc") (str "xxabcxx") 0)
      as (_ & _ & Hexact).
    apply Hexact. by exists (str "xx"), (str "xx").
Defined.

(** C4. For every row, two runs of [check_citations] that raise nothing, on
    dataframes that hold the same values in the row's output field and input
    fields, leave the same verified text in the row's derived cell, whatever
    the derived column held before: the write is an overwrite. The dataframe
    that a first run leaves holds the same inputs as before when the derived
    column is not among the input fields, and a run on a dataframe with the
    same inputs in all the rows raises nothing when the first run raises
    nothing. *)
Theorem check_citations_rerun `{CitationChecker} (self : Scientist)
    (o : text) (ins : list text) (rows : list Z) (st st1 : state) :
  check_citations self o ins rows st = (Ok tt, st1) ->
  (forall st' st1' same,
     check_citations self o ins rows st' = (Ok tt, st1') ->
     same_inputs o ins same (data st) (data st') ->
     Forall (fun r => r ∈ rows ->
                      loc (data st1') r (_verified_field_name o)
                      = loc (data st1) r (_verified_field_name o)) same) /\
  (_verified_field_name o ∉ ins ->
   same_inputs o ins rows (data st) (data st1)) /\
  (forall st', same_inputs o ins rows (data st) (data st') ->
     exists st1',
       check_citations self o ins rows st' = (Ok tt, st1') /\
       Forall (fun r => loc (data st1') r (_verified_field_name o)
                        = loc (data st1) r (_verified_field_name o)) rows).
Proof.
  intros Hrun. split; [|split].
  - intros st' st1' same Hrun' Hsame.
    by eapply check_citations_same_row_inputs.
  - intros Hnot.
    pose proof (check_citations_keeps_inputs self o ins rows st Hnot) as Hk.
    by rewrite Hrun in Hk.
  - intros st' Hsame. by eapply check_citations_same_inputs.
Qed.

(** A second run on the dataframe the first run leaves, and a run on a
    dataframe that agrees with it in row 0 only. *)
Lemma check_citations_rerun_witness :
  let first :=
    check_citations (H := citation_checker_spec) default_scientist ANSWER
      [SOURCE] [0%Z; 1%Z] (initial frame_two) in
  (exists st2,
     check_citations (H := citation_checker_spec) default_scientist ANSWER
       [SOURCE] [0%Z; 1%Z] first.2 = (Ok tt, st2) /\
     Forall (fun r => loc (data st2) r (_verified_field_name ANSWER)
                      = loc (data first.2) r (_verified_field_name ANSWER))
       [0%Z; 1%Z]) /\
  Forall (fun r =>
            r ∈ [0%Z; 1%Z] ->
            loc (data (check_citations (H := citation_checker_spec)
                         default_scientist ANSWER [SOURCE] [0%Z; 1%Z]
                         (initial frame_two_other)).2) r
              (_verified_field_name ANSWER)
            = loc (data first.2) r (_verified_field_name ANSWER)) [0%Z].
Proof.
  destruct (check_citations_rerun (H := citation_checker_spec)
              default_scientist ANSWER [SOURCE] [0%Z; 1%Z] (initial frame_two)
              (check_citations (H := citation_checker_spec) default_scientist
                 ANSWER [SOURCE] [0%Z; 1%Z] (initial frame_two)).2)
    as (Hrow & Hkeeps & Hsame); [vm_compute; reflexivity|].
  split.
  - apply Hsame, Hkeeps. vm_compute. intros Hin.
    apply list_elem_of_singleton in Hin. discriminate Hin.
  - apply (Hrow (initial frame_two_other)).
    + vm_compute. reflexivity.
    + repeat constructor.
Defined.

(** An empty output cell beside a missing input cell: the [join] of line 574
    raises [TypeError], and row 1, which a run of its own verifies, is never
    reached. A missing output cell beside an input cell that is a string: the
    extractor raises [TypeError], and row 1 is never reached either. *)
Lemma empty_output_row_raises :
  let run :=
    check_citations (H := citation_checker_spec) default_scientist ANSWER
      [SOURCE] [0%Z; 1%Z] (initial frame_nan) in
  let alone :=
    check_citations (H := citation_checker_spec) default_scientist ANSWER
      [SOURCE] [1%Z] (initial frame_nan) in
  let run' :=
    check_citations (H := citation_checker_spec) default_scientist ANSWER
      [SOURCE] [0%Z; 1%Z] (initial frame_absent) in
  let alone' :=
    check_citations (H := citation_checker_spec) default_scientist ANSWER
      [SOURCE] [1%Z] (initial frame_absent) in
  (loc frame_nan 0 ANSWER = Ok (VStr []) /\
   loc frame_nan 0 SOURCE = Ok VNaN /\
   run.1 = Raise TypeError /\
   loc (data run.2) 1 (_verified_field_name ANSWER) = Ok (VStr []) /\
   alone.1 = Ok tt /\
   loc (data alone.2) 1 (_verified_field_name ANSWER)
     = Ok (VStr (quoted (str "a")))) /\
  (loc frame_absent 0 ANSWER = Ok VNaN /\
   loc frame_absent 0 SOURCE = Ok (VStr (str "some text")) /\
   run'.1 = Raise TypeError /\
   loc (data run'.2) 1 (_verified_field_name ANSWER) = Ok (VStr []) /\
   alone'.1 = Ok tt /\
   loc (data alone'.2) 1 (_verified_field_name ANSWER)
     = Ok (VStr (quoted (str "a")))).
Proof. repeat split; vm_compute; reflexivity. Qed.

(** C5 (amended). For every row that [check_citations] reaches and whose
    output-field cell is absent (the missing value [NaN]) or the empty
    string: when the extractor finds no citation in the cell and the
    input-field cells of the row are strings, [check_citations] raises nothing
    and leaves the cell unchanged in the verified cell. No exception is
    caught: where an input-field cell of the row is not a string, the
    exception of the [join], and where the extractor raises on the cell, its
    exception, ends the run, and the rows after it are not processed. *)
Theorem check_citations_empty_output `{CitationChecker} (self : Scientist)
    (o : text) (ins : list text) (rows : list Z) (row : Z) (v : value)
    (st st1 : state) :
  check_citations self o ins rows st = (Ok tt, st1) ->
  loc (data st1) row o = Ok v ->
  v = VStr [] \/ v = VNaN ->
  (extract_citations v = Ok [] ->
   (forall vals, loc_list (data st1) row ins = Ok (VStr <$> vals) ->
      exists st2,
        check_citations self o ins (rows ++ [row]) st = (Ok tt, st2) /\
        loc (data st2) row (_verified_field_name o) = Ok v) /\
   (forall cells e rest,
      loc_list (data st1) row ins = Ok cells ->
      str_join [newline; newline] cells = Raise e ->
      (check_citations self o ins (rows ++ row :: rest) st).1 = Raise e /\
      data (check_citations self o ins (rows ++ row :: rest) st).2
        = data st1)) /\
  (forall e rest,
     extract_citations v = Raise e ->
     (check_citations self o ins (rows ++ row :: rest) st).1 = Raise e /\
     data (check_citations self o ins (rows ++ row :: rest) st).2 = data st1).
Proof.
  intros Hrun Hout _.
  assert (forall e rest,
            row_verified self o ins (data st1) row = Raise e ->
            (check_citations self o ins (rows ++ row :: rest) st).1 = Raise e
            /\ data (check_citations self o ins (rows ++ row :: rest) st).2
               = data st1) as Hraise.
  { intros e rest Hrv.
    destruct (check_citations_view self o ins (rows ++ row :: rest) st)
      as [-> ->].
    destruct (check_citations_ok_eq self o ins rows st st1 Hrun) as [Hok Hdf].
    rewrite rows_view_app.
    destruct (rows_view self o ins (ensure_column o (data st)) rows)
      as [[[]|e'] df1]; simpl in *; [|done]. subst df1.
    by rewrite Hrv. }
  split.
  - intros Hcits. split.
    + intros vals Hins.
      destruct (check_citations_snoc self o ins rows row st st1 Hrun)
        as (Hvf & H1 & H2).
      assert (row_verified self o ins (data st1) row = Ok v) as Hrv.
      { unfold row_verified. by rewrite Hout, Hcits, Hins, str_join_strings. }
      rewrite Hrv in H1, H2.
      exists (check_citations self o ins (rows ++ [row]) st).2. split.
      * destruct (check_citations self o ins (rows ++ [row]) st) as [r st2].
        simpl in *. by rewrite H1.
      * rewrite H2. apply loc_ok_inv in Hout as [Hrow _].
        rewrite loc_loc_set by done. by rewrite decide_True.
    + intros cells e rest Hins Hjoin. apply Hraise.
      unfold row_verified. by rewrite Hout, Hcits, Hins, Hjoin.
  - intros e rest Hcits. apply Hraise.
    unfold row_verified. by rewrite Hout, Hcits.
Qed.

(** An empty answer and a missing answer beside a source that is a string,
    an empty answer beside a missing source, and a missing answer under an
    extractor that raises on it. *)
Lemma check_citations_empty_output_witness :
  (exists st2,
     check_citations (H := citation_checker_spec) default_scientist ANSWER
       [SOURCE] ([] ++ [0%Z]) (initial frame_empty) = (Ok tt, st2) /\
     loc (data st2) 0 (_verified_field_name ANSWER) = Ok (VStr [])) /\
  (exists st2,
     check_citations (H := citation_checker_lenient) default_scientist ANSWER
       [SOURCE] ([] ++ [0%Z]) (initial frame_absent) = (Ok tt, st2) /\
     loc (data st2) 0 (_verified_field_name ANSWER) = Ok VNaN) /\
  (check_citations (H := citation_checker_spec) default_scientist ANSWER
     [SOURCE] ([] ++ 0%Z :: [1%Z]) (initial frame_nan)).1 = Raise TypeError /\
  (check_citations (H := citation_checker_spec) default_scientist ANSWER
     [SOURCE] ([] ++ 0%Z :: [1%Z]) (initial frame_absent)).1
  = Raise TypeError.
Proof.
  split; [|split; [|split]].
  - destruct (check_citations_empty_output (H := citation_checker_spec)
                default_scientist ANSWER [SOURCE] [] 0 (VStr [])
                (initial frame_empty)
                (initial (ensure_column ANSWER frame_empty)))
      as [Hok _]; [vm_compute; reflexivity | vm_compute; reflexivity
                  | by left |].
    apply (proj1 (Hok eq_refl) [str "some text"]). vm_compute. reflexivity.
  - destruct (check_citations_empty_output (H := citation_checker_lenient)
                default_scientist ANSWER [SOURCE] [] 0 VNaN
                (initial frame_absent)
                (initial (ensure_column ANSWER frame_absent)))
      as [Hok _]; [vm_compute; reflexivity | vm_compute; reflexivity
                  | by right |].
    apply (proj1 (Hok eq_refl) [str "some text"]). vm_compute. reflexivity.
  - destruct (check_citations_empty_output (H := citation_checker_spec)
                default_scientist ANSWER [SOURCE] [] 0 (VStr [])
                (initial frame_nan)
                (initial (ensure_column ANSWER frame_nan)))
      as [Hok _]; [vm_compute; reflexivity | vm_compute; reflexivity
                  | by left |].
    apply (proj2 (Hok eq_refl) [VNaN] TypeError [1%Z]);
      vm_compute; reflexivity.
  - destruct (check_citations_empty_output (H := citation_checker_spec)
                default_scientist ANSWER [SOURCE] [] 0 VNaN
                (initial frame_absent)
                (initial (ensure_column ANSWER frame_absent)))
      as [_ Hraise]; [vm_compute; reflexivity | vm_compute; reflexivity
                     | by right |].
    apply (Hraise TypeError [1%Z]). vm_compute. reflexivity.
Defined.
(** With a budget of 1 the first citation of [frame_inside], [b], is matched
    by [x], and [str.replace] rewrites the [b] of the second citation too;
    the matcher reports no match for the second citation, [abcd], which no
    longer stands in the text: nothing is substituted for it, and the
    verified text holds no marker. *)
Lemma lost_citation_leaves_no_marker :
  let self := set_max_fuzzy_distance default_scientist 1 in
  let run :=
    check_citations (H := citation_checker_spec) self ANSWER [SOURCE] [0%Z]
      (initial frame_inside) in
  loc frame_inside 0 ANSWER
    = Ok (VStr (quoted (str "b") ++ str " " ++ quoted (str "abcd"))) /\
  extract_citations (CitationChecker := citation_checker_spec)
    (VStr (quoted (str "b") ++ str " " ++ quoted (str "abcd")))
    = Ok [str "b"; str "abcd"] /\
  fuzzy_find_in_text (CitationChecker := citation_checker_spec)
    (str "b") (reference_text [str "x"]) (max_fuzzy_distance self)
    = Some (str "x", 1) /\
  fuzzy_find_in_text (CitationChecker := citation_checker_spec)
    (str "abcd") (reference_text [str "x"]) (max_fuzzy_distance self)
    = None /\
  run.1 = Ok tt /\
  loc (data run.2) 0 (_verified_field_name ANSWER)
    = Ok (VStr (quoted (str "x") ++ str " " ++ quoted (str "axcd"))) /\
  occurrences (str "CITATION NOT FOUND")
    (quoted (str "x") ++ str " " ++ quoted (str "axcd")) = 0.
Proof. repeat split; vm_compute; reflexivity. Qed.

(** C6 (amended). For every citation of a processed row for which the matcher
    reports no match, [check_citations] substitutes the literal [CITATION NOT
    FOUND] for every occurrence of the citation in the text as verified so
    far: the marker stands in that text when the citation still occurs in
    it, exactly in its place when it occurs once, and nothing is substituted
    when an earlier substitution has left no occurrence. In each case
    [check_citations] goes on with the citations after it, raises nothing,
    and goes on with the rows after the row. *)
Theorem check_citations_not_found `{CitationChecker} (self : Scientist)
    (o : text) (ins : list text) (rows : list Z) (row : Z) (st st1 : state)
    (out : text) (before : list text) (c : text) (after : list text)
    (vals : list text) :
  check_citations self o ins rows st = (Ok tt, st1) ->
  loc (data st1) row o = Ok (VStr out) ->
  extract_citations (VStr out) = Ok (before ++ c :: after) ->
  loc_list (data st1) row ins = Ok (VStr <$> vals) ->
  fuzzy_find_in_text c (reference_text vals) (max_fuzzy_distance self) = None ->
  let so_far := verified_text self (reference_text vals) before out in
  let marked := replace c (str "CITATION NOT FOUND") so_far in
  (exists st2,
     check_citations self o ins (rows ++ [row]) st = (Ok tt, st2) /\
     loc (data st2) row (_verified_field_name o)
       = Ok (VStr (verified_text self (reference_text vals) after marked)) /\
     forall rest,
       check_citations self o ins ((rows ++ [row]) ++ rest) st
       = for_each rest (check_row self o ins) st2) /\
  (substring c so_far -> substring (str "CITATION NOT FOUND") marked) /\
  (forall p q,
     c <> [] -> so_far = p ++ c ++ q -> occurrences c so_far = 1 ->
     marked = p ++ str "CITATION NOT FOUND" ++ q) /\
  (c <> [] -> occurrences c so_far = 0 -> marked = so_far).
Proof.
  intros Hrun Hout Hcits Hins Hnone so_far marked.
  split; [|split; [|split]].
  - destruct (check_citations_row self o ins rows row st st1 _ _ _
                Hrun Hout Hcits Hins) as (st2 & Hrun2 & Hloc).
    exists st2. split; [done|]. split.
    + rewrite Hloc. unfold verified_text. rewrite fold_left_app. simpl.
      unfold replacement at 2. by rewrite Hnone.
    + intros rest. by rewrite check_citations_app, Hrun2.
  - apply replace_keeps_new.
  - intros p q Hc Heq Hocc. subst marked. rewrite Heq in Hocc |- *.
    by apply replace_once.
  - intros Hc Hocc. by apply replace_absent.
Qed.

(** With a budget of 0 the citation of [frame_near] has no match, and the
    marker takes its place between the quotes. *)
Lemma check_citations_not_found_witness :
  let strict := set_max_fuzzy_distance default_scientist 0 in
  (exists st2,
     check_citations (H := citation_checker_spec) strict ANSWER [SOURCE]
       ([] ++ [0%Z]) (initial frame_near) = (Ok tt, st2) /\
     loc (data st2) 0 (_verified_field_name ANSWER)
       = Ok (VStr (str "x " ++ quoted (str "CITATION NOT FOUND")
                     ++ str " y")) /\
     forall rest,
       check_citations (H := citation_checker_spec) strict ANSWER [SOURCE]
         (([] ++ [0%Z]) ++ rest) (initial frame_near)
       = for_each rest
           (check_row (H := citation_checker_spec) strict ANSWER [SOURCE])
           st2) /\
  replace (str "abc") (str "CITATION NOT FOUND")
    (str "x " ++ quoted (str "abc") ++ str " y")
  = (str "x " ++ [dquote]) ++ str "CITATION NOT FOUND"
      ++ ([dquote] ++ str " y").
Proof.
  intros strict.
  destruct (check_citations_not_found (H := citation_checker_spec)
              strict ANSWER [SOURCE] [] 0
              (initial frame_near) (initial (ensure_column ANSWER frame_near))
              (str "x " ++ quoted (str "abc") ++ str " y") [] (str "abc") []
              [str "abd"])
    as ((st2 & Hrun & Hloc & Hrest) & _ & Hone & _);
    [vm_compute; reflexivity ..|].
  split.
  - exists st2. split; [exact Hrun|]. split; [|exact Hrest].
    rewrite Hloc. vm_compute. reflexivity.
  - apply (Hone (str "x " ++ [dquote]) ([dquote] ++ str " y")).
    + discriminate.
    + vm_compute. reflexivity.
    + vm_compute. reflexivity.
Defined.

(** C7. For every row processed by [check_citations] whose output text holds
    exactly one citation, a citation that occurs verbatim in the reference
    text, so that the matcher reports it at distance 0, the verified text is
    the output text. *)
Theorem check_citations_exact_quote
    (extract : value -> result (list text)) (self : Scientist) (o : text)
    (ins : list text) (rows : list Z) (row : Z) (st st1 : state) (out c : text)
    (vals : list text) :
  let checker :=
    {| extract_citations := extract;
       fuzzy_find_in_text := citation_checker.fuzzy_find_in_text |} in
  check_citations (H := checker) self o ins rows st = (Ok tt, st1) ->
  loc (data st1) row o = Ok (VStr out) ->
  extract (VStr out) = Ok [c] ->
  loc_list (data st1) row ins = Ok (VStr <$> vals) ->
  substring c (reference_text vals) ->
  citation_checker.fuzzy_find_in_text c (reference_text vals)
    (max_fuzzy_distance self) = Some (c, 0) /\
  exists st2,
    check_citations (H := checker) self o ins (rows ++ [row]) st
      = (Ok tt, st2) /\
    loc (data st2) row (_verified_field_name o) = Ok (VStr out).
Proof.
  intros checker Hrun Hout Hcits Hins Hsub.
  pose proof (fuzzy_find_exact c (reference_text vals)
                (max_fuzzy_distance self) Hsub) as Hexact.
  split; [done|].
  destruct (check_citations_row (H := checker) self o ins rows row st st1
              _ _ _ Hrun Hout Hcits Hins) as (st2 & Hrun2 & Hloc).
  exists st2. split; [done|]. rewrite Hloc.
  unfold verified_text, replacement. simpl.
  by rewrite Hexact, replace_same.
Qed.

(** The citation of [frame_exact] stands in the source. *)
Lemma check_citations_exact_quote_witness :
  citation_checker.fuzzy_find_in_text (str "abc")
    (reference_text [str "xxabcxx"]) (max_fuzzy_distance default_scientist)
    = Some (str "abc", 0) /\
  exists st2,
    check_citations (H := citation_checker_spec) default_scientist ANSWER
      [SOURCE] ([] ++ [0%Z]) (initial frame_exact) = (Ok tt, st2) /\
    loc (data st2) 0 (_verified_field_name ANSWER)
      = Ok (VStr (str "see " ++ quoted (str "abc"))).
Proof.
  apply (check_citations_exact_quote citation_checker.extract_citations
           default_scientist ANSWER [SOURCE] [] 0 (initial frame_exact)
           (initial (ensure_column ANSWER frame_exact))
           (str "see " ++ quoted (str "abc")) (str "abc") [str "xxabcxx"]);
    try (vm_compute; reflexivity).
  by exists (str "xx"), (str "xx").
Defined.

(** C8. For every output field name, [check_citations] puts the verified
    text into the column named by the output field's name with [_verified]
    appended: the name is a function of the output field's name alone, differs
    from it, and differs for different output fields; the column is there
    after every run; and the verified text of a processed row is in it. *)
Theorem check_citations_verified_column `{CitationChecker} (self : Scientist)
    (o : text) (ins : list text) (rows : list Z) (st : state) :
  _verified_field_name o = o ++ str "_verified" /\
  _verified_field_name o <> o /\
  (forall o', _verified_field_name o = _verified_field_name o' -> o = o') /\
  o ++ str "_verified"
    ∈ df_columns (data (check_citations self o ins rows st).2) /\
  forall st1 row out cits vals,
    check_citations self o ins rows st = (Ok tt, st1) ->
    loc (data st1) row o = Ok (VStr out) ->
    extract_citations (VStr out) = Ok cits ->
    loc_list (data st1) row ins = Ok (VStr <$> vals) ->
    exists st2,
      check_citations self o ins (rows ++ [row]) st = (Ok tt, st2) /\
      loc (data st2) row (o ++ str "_verified")
        = Ok (VStr (verified_text self (reference_text vals) cits out)).
Proof.
  split; [done|]. split; [apply verified_field_name_neq|].
  split; [intros o' Heq; by apply app_inv_tail in Heq|].
  split.
  - destruct (check_citations_frame_view self o ins rows st) as (_ & -> & _).
    apply ensure_column_has.
  - intros st1 row out cits vals. apply check_citations_row.
Qed.

(** The derived column of [answer] is [answer_verified]. *)
Lemma check_citations_verified_column_witness :
  exists st2,
    check_citations (H := citation_checker_spec) default_scientist ANSWER
      [SOURCE] ([] ++ [0%Z]) (initial frame_near) = (Ok tt, st2) /\
    loc (data st2) 0 (ANSWER ++ str "_verified")
      = Ok (VStr (verified_text (H := citation_checker_spec) default_scientist
                    (reference_text [str "abd"]) [str "abc"]
                    (str "x " ++ quoted (str "abc") ++ str " y"))).
Proof.
  destruct (check_citations_verified_column (H := citation_checker_spec)
              default_scientist ANSWER [SOURCE] [] (initial frame_near))
    as (_ & _ & _ & _ & Hrow).
  apply (Hrow (initial (ensure_column ANSWER frame_near)));
    vm_compute; reflexivity.
Defined.

(** C9. [check_citations] changes only the derived column of the dataframe:
    the row labels stay, the column labels stay but for the derived column
    appended when it was not there, the cells of every other column stay in
    every row, and in the derived column the cells of the rows that are not
    among the given rows stay, or hold the empty string when the column was
    not there. *)
Theorem check_citations_frame `{CitationChecker} (self : Scientist) (o : text)
    (ins : list text) (rows : list Z) (st : state) :
  let df := data st in
  let df' := data (check_citations self o ins rows st).2 in
  df_index df' = df_index df /\
  df_columns df' =
    (if decide (_verified_field_name o ∈ df_columns df) then df_columns df
     else df_columns df ++ [_verified_field_name o]) /\
  (forall r c, c <> _verified_field_name o -> loc df' r c = loc df r c) /\
  (forall r, r ∉ rows ->
     loc df' r (_verified_field_name o) =
       if decide (_verified_field_name o ∈ df_columns df)
       then loc df r (_verified_field_name o)
       else if decide (r ∈ df_index df) then Ok (VStr [])
            else Raise KeyError).
Proof.
  intros df df'. subst df df'.
  destruct (check_citations_frame_view self o ins rows st) as (Hi & Hc & Hl).
  split; [done|]. split; [by rewrite Hc, ensure_column_columns|]. split.
  - intros r c Hne. rewrite Hl by (by left). rewrite loc_ensure_column.
    rewrite decide_False; [done|]. by intros [? _].
  - intros r Hr. rewrite Hl by (by right). rewrite loc_ensure_column.
    destruct (decide (_verified_field_name o ∈ df_columns (data st))).
    + rewrite decide_False; [done|]. by intros [_ ?].
    + by rewrite decide_True.
Qed.

(** A run over row 1 leaves the answer of row 1 and the derived cell of
    row 0. *)
Lemma check_citations_frame_witness :
  let df' :=
    data (check_citations (H := citation_checker_spec) default_scientist
            ANSWER [SOURCE] [1%Z] (initial frame_nan)).2 in
  loc df' 1 ANSWER = loc frame_nan 1 ANSWER /\
  loc df' 0 (_verified_field_name ANSWER) = Ok (VStr []).
Proof.
  destruct (check_citations_frame (H := citation_checker_spec)
              default_scientist ANSWER [SOURCE] [1%Z] (initial frame_nan))
    as (_ & _ & Hother & Hrows).
  split.
  - apply Hother. vm_compute. discriminate.
  - rewrite Hrows; [vm_compute; reflexivity|].
    intros Hin. apply list_elem_of_singleton in Hin. discriminate Hin.
Defined.

(** C10. For a row label among the given rows that is not a label of the
    dataframe's index, [check_citations] raises an exception instead of
    passing the row over: when the rows before the label raise nothing, the
    exception is the [KeyError] of reading the output cell, and the rows after
    the label are not processed. *)
Theorem check_citations_unknown_row `{CitationChecker} (self : Scientist)
    (o : text) (ins : list text) (before after : list Z) (r : Z)
    (st : state) :
  r ∉ df_index (data st) ->
  (exists e,
     (check_citations self o ins (before ++ r :: after) st).1 = Raise e) /\
  forall st1, check_citations self o ins before st = (Ok tt, st1) ->
    (check_citations self o ins (before ++ r :: after) st).1 = Raise KeyError
    /\
    data (check_citations self o ins (before ++ r :: after) st).2 = data st1.
Proof. apply check_citations_missing_label. Qed.

(** The label 5 in a dataframe of one row. *)
Lemma check_citations_unknown_row_witness :
  (check_citations (H := citation_checker_spec) default_scientist ANSWER
     [SOURCE] ([0%Z] ++ 5%Z :: [0%Z]) (initial frame_empty)).1
  = Raise KeyError.
Proof.
  destruct (check_citations_unknown_row (H := citation_checker_spec)
              default_scientist ANSWER [SOURCE] [0%Z] [0%Z] 5
              (initial frame_empty)) as [_ Hkey].
  - vm_compute. intros Hin. apply list_elem_of_singleton in Hin.
    discriminate Hin.
  - destruct (Hkey (check_citations (H := citation_checker_spec)
                      default_scientist ANSWER [SOURCE] [0%Z]
                      (initial frame_empty)).2) as [Hraise _];
      [vm_compute; reflexivity | exact Hraise].
Defined.

(** ** Worksheet names *)

Lemma str_inj (s1 s2 : string) : str s1 = str s2 -> s1 = s2.
Proof.
  unfold str. intros Heq.
  rewrite <- (string_of_list_ascii_of_string s1).
  rewrite <- (string_of_list_ascii_of_string s2). f_equal.
  revert Heq. generalize (list_ascii_of_string s1) (list_ascii_of_string s2).
  induction l as [|a l IH]; intros [|b k]; simpl; try done.
  intros [= Hab Hlk]. f_equal; [|by apply IH].
  rewrite <- (ascii_N_embedding a), <- (ascii_N_embedding b). by rewrite Hab.
Qed.

Lemma numbered_inj (o : text) (i j : nat) :
  numbered o i = numbered o j -> i = j.
Proof.
  unfold numbered. intros Heq.
  apply app_inv_head, app_inv_head, str_inj in Heq.
  by apply (inj pretty) in Heq.
Qed.

(** The name that the loop gives is free, and the numbers before it are
    taken. *)
Lemma first_free_some (fuel : nat) (o : text) (names : list text) (i : nat)
    (name : text) :
  first_free fuel o names i = Some name ->
  exists j, i <= j /\ j < i + fuel /\ name = numbered o j /\ (name ∉ names) /\
    forall k, i <= k < j -> numbered o k ∈ names.
Proof.
  revert i. induction fuel as [|fuel IH]; intros i; [done|]. simpl.
  destruct (bool_decide (numbered o i ∈ names)) eqn:E.
  - apply bool_decide_eq_true in E. intros Hsome.
    destruct (IH _ Hsome) as (j & Hij & Hlt & Hname & Hfree & Htaken).
    exists j. repeat split; try done; try lia.
    intros k Hk. destruct (decide (k = i)) as [->|Hne]; [done|].
    apply Htaken. lia.
  - apply bool_decide_eq_false in E. intros [= <-].
    exists i. repeat split; try done; try lia.
Qed.

Lemma first_free_none (fuel : nat) (o : text) (names : list text) (i : nat) :
  first_free fuel o names i = None ->
  forall k, i <= k < i + fuel -> numbered o k ∈ names.
Proof.
  revert i. induction fuel as [|fuel IH]; intros i; [intros _ k; lia|]. simpl.
  destruct (bool_decide (numbered o i ∈ names)) eqn:E; [|done].
  apply bool_decide_eq_true in E. intros Hnone k Hk.
  destruct (decide (k = i)) as [->|Hne]; [done|].
  apply (IH _ Hnone). lia.
Qed.

(** The titles hold no more numbered names in a row than there are titles. *)
Lemma numbered_taken_bound (o : text) (names : list text) (i n : nat) :
  (forall k, i <= k < i + n -> numbered o k ∈ names) -> n <= length names.
Proof.
  intros Htaken.
  assert (NoDup (numbered o <$> seq i n)) as Hnd.
  { apply NoDup_fmap_2_strong; [|apply NoDup_seq].
    intros x y _ _. apply numbered_inj. }
  apply NoDup_submseteq with (k := names) in Hnd.
  - apply submseteq_length in Hnd. by rewrite length_fmap, length_seq in Hnd.
  - intros x (k & -> & Hk)%list_elem_of_fmap.
    apply elem_of_seq in Hk. apply Htaken. lia.
Qed.

Lemma first_free_fuel (fuel fuel' : nat) (o : text) (names : list text)
    (i : nat) (name : text) :
  first_free fuel o names i = Some name ->
  fuel <= fuel' ->
  first_free fuel' o names i = Some name.
Proof.
  revert fuel' i. induction fuel as [|fuel IH]; intros fuel' i; [done|].
  destruct fuel' as [|fuel']; [lia|]. simpl.
  destruct (bool_decide (numbered o i ∈ names)); [|done].
  intros Hsome Hle. apply IH; [done | lia].
Qed.

(** The loop ends within more passes than there are titles. *)
Lemma first_free_ends (fuel : nat) (o : text) (names : list text) :
  length names < fuel -> exists name, first_free fuel o names 1 = Some name.
Proof.
  intros Hfuel. destruct (first_free fuel o names 1) as [name|] eqn:Hff;
    [by exists name|].
  pose proof (numbered_taken_bound o names 1 fuel
                (first_free_none _ _ _ _ Hff)).
  lia.
Qed.

(** X1. [_output_sheet_name] ends: more passes of its loop than there are
    worksheets give a name, the same name however many more passes are
    allowed, and the name is the title of no worksheet. *)
Theorem output_sheet_name_fresh (fuel : nat) (o : text) (names : list text) :
  length names < fuel ->
  exists name,
    _output_sheet_name fuel o names = Some name /\
    (name ∉ names) /\
    forall fuel', length names < fuel' ->
      _output_sheet_name fuel' o names = Some name.
Proof.
  intros Hfuel. unfold _output_sheet_name.
  destruct (bool_decide (o ∈ names)) eqn:E.
  - assert (forall f, length names < f ->
              exists name, first_free f o names 1 = Some name) as Hends.
    { intros f Hf. destruct (first_free f o names 1) as [name|] eqn:Hff;
        [by exists name|].
      pose proof (numbered_taken_bound o names 1 f
                    (first_free_none _ _ _ _ Hff)).
      lia. }
    destruct (Hends fuel Hfuel) as [name Hname]. exists name.
    split; [done|]. split.
    + by destruct (first_free_some _ _ _ _ _ Hname) as (_ & _ & _ & _ & ? & _).
    + intros fuel' Hfuel'. destruct (Hends fuel' Hfuel') as [name' Hname'].
      destruct (Nat.le_ge_cases fuel fuel') as [Hle|Hle].
      * by apply (first_free_fuel fuel).
      * rewrite Hname'. f_equal.
        apply (first_free_fuel fuel' fuel) in Hname'; [|done]. congruence.
  - apply bool_decide_eq_false in E. by exists o.
Qed.

(** Three worksheets, with the name and its first numbered form taken. *)
Lemma output_sheet_name_fresh_witness :
  exists name,
    _output_sheet_name 4 (str "gpt_output")
      [str "gpt_output"; str "data"; str "gpt_output_1"] = Some name /\
    (name ∉ [str "gpt_output"; str "data"; str "gpt_output_1"]) /\
    forall fuel',
      length [str "gpt_output"; str "data"; str "gpt_output_1"] < fuel' ->
      _output_sheet_name fuel' (str "gpt_output")
        [str "gpt_output"; str "data"; str "gpt_output_1"] = Some name.
Proof.
  apply (output_sheet_name_fresh 4 (str "gpt_output")
           [str "gpt_output"; str "data"; str "gpt_output_1"]).
  simpl. lia.
Defined.

(** X2. Given more passes of its loop than there are worksheets,
    [_output_sheet_name] gives a name: [output_sheet] itself when no
    worksheet has that title; otherwise [output_sheet] with the least number
    from 1 on that gives a free title, a number that is at most the number of
    worksheets. *)
Theorem output_sheet_name_least (fuel : nat) (o : text) (names : list text) :
  length names < fuel ->
  exists name,
    _output_sheet_name fuel o names = Some name /\
    (((o ∉ names) /\ name = o) \/
     ((o ∈ names) /\
      exists j, 1 <= j <= length names /\ name = numbered o j /\
        (name ∉ names) /\ forall k, 1 <= k < j -> numbered o k ∈ names)).
Proof.
  intros Hfuel. unfold _output_sheet_name.
  destruct (bool_decide (o ∈ names)) eqn:E.
  - apply bool_decide_eq_true in E.
    destruct (first_free_ends fuel o names Hfuel) as [name Hsome].
    exists name. split; [done|]. right. split; [done|].
    destruct (first_free_some _ _ _ _ _ Hsome)
      as (j & Hj & _ & Hname & Hfree & Htaken).
    exists j. repeat split; try done.
    assert (NoDup (o :: (numbered o <$> seq 1 (j - 1)))) as Hnd.
    { apply NoDup_cons. split.
      - intros (k & Hk & _)%list_elem_of_fmap.
        apply (f_equal length) in Hk. unfold numbered in Hk.
        rewrite !length_app in Hk. vm_compute (length (str "_")) in Hk. lia.
      - apply NoDup_fmap_2_strong; [|apply NoDup_seq].
        intros x y _ _. apply numbered_inj. }
    apply NoDup_submseteq with (k := names) in Hnd.
    + apply submseteq_length in Hnd. simpl in Hnd.
      rewrite length_fmap, length_seq in Hnd. lia.
    + intros x [->|(k & -> & Hk)%list_elem_of_fmap]%elem_of_cons; [done|].
      apply elem_of_seq in Hk. apply Htaken. lia.
  - apply bool_decide_eq_false in E. exists o. split; [done|]. by left.
Qed.

(** The name and its first two numbered forms are taken: the name given is
    the third numbered form. *)
Lemma output_sheet_name_least_witness :
  _output_sheet_name 5 (str "gpt_output")
    [str "gpt_output_2"; str "gpt_output"; str "x"; str "gpt_output_1"]
  = Some (str "gpt_output_3") /\
  exists j, 1 <= j <= 4 /\
    str "gpt_output_3" = numbered (str "gpt_output") j /\
    forall k, 1 <= k < j ->
      numbered (str "gpt_output") k
        ∈ [str "gpt_output_2"; str "gpt_output"; str "x"; str "gpt_output_1"].
Proof.
  destruct (output_sheet_name_least 5 (str "gpt_output")
              [str "gpt_output_2"; str "gpt_output"; str "x";
               str "gpt_output_1"])
    as (name & Hsome & [[Hfree _]|[_ (j & Hj & Hname & _ & Htaken)]]).
  - simpl. lia.
  - exfalso. apply Hfree. vm_compute. apply list_elem_of_further,
      list_elem_of_here.
  - assert (name = str "gpt_output_3") as ->.
    { vm_compute in Hsome. injection Hsome as <-. reflexivity. }
    split; [reflexivity|].
    exists j. split; [exact Hj|]. split; [exact Hname | exact Htaken].
Defined.

(** ** Row ranges *)

Lemma split_pieces_app (sep : char) (a b : text) :
  split_pieces sep (a ++ sep :: b) =
    ((split_pieces sep a).1, (split_pieces sep a).2 ++ str_split sep b).
Proof.
  induction a as [|c a IH]; simpl.
  - rewrite N.eqb_refl. unfold str_split. by destruct (split_pieces sep b).
  - rewrite IH. destruct (split_pieces sep a) as [p ps]. simpl.
    by destruct (c =? sep)%N.
Qed.

Lemma str_split_app (sep : char) (a b : text) :
  str_split sep (a ++ sep :: b) = str_split sep a ++ str_split sep b.
Proof.
  unfold str_split at 1 2. rewrite split_pieces_app.
  by destruct (split_pieces sep a).
Qed.

Lemma str_split_absent (sep : char) (s : text) :
  sep ∉ s -> str_split sep s = [s].
Proof.
  intros Hsep. unfold str_split.
  assert (split_pieces sep s = (s, [])) as ->; [|done].
  induction s as [|c s IH]; [done|]. simpl.
  rewrite IH by (intros ?; apply Hsep; by apply list_elem_of_further).
  destruct (c =? sep)%N eqn:E; [|done].
  apply N.eqb_eq in E as ->. destruct Hsep. apply list_elem_of_here.
Qed.

(** A string that holds the separator splits in two pieces at least. *)
Lemma str_split_present (sep : char) (s : text) :
  sep ∈ s -> exists p0 p1 ps, str_split sep s = p0 :: p1 :: ps.
Proof.
  intros (a & b & ->)%list_elem_of_split. rewrite str_split_app.
  unfold str_split. destruct (split_pieces sep a) as [p ps].
  destruct (split_pieces sep b) as [q qs].
  destruct ps as [|p' ps]; simpl; eauto.
Qed.

Lemma for_fold_app {A B} (xs ys : list A) (acc : B) (body : B -> A -> M B)
    (st : state) :
  for_fold (xs ++ ys) acc body st =
    match for_fold xs acc body st with
    | (Ok acc', st') => for_fold ys acc' body st'
    | (Raise e, st') => (Raise e, st')
    end.
Proof.
  revert acc st. induction xs as [|x xs IH]; intros acc st; [done|].
  simpl. unfold mbind, M_bind.
  destruct (body acc x st) as [[acc'|e] st']; [apply IH | done].
Qed.

Section RowRangeFacts.

Variable int : text -> option Z.
Variable range_str : text.
Variable n_rows : Z.

Lemma state_log_nil (st : state) :
  {| data := data st; log := log st ++ [] |} = st.
Proof. destruct st. simpl. by rewrite app_nil_r. Qed.

Lemma parse_int_view (s : text) (st : state) :
  parse_int int range_str s st =
    (Ok (int_or_first_row int s),
     {| data := data st;
        log := log st ++ if int s is Some _ then []
                         else [invalid_line range_str] |}).
Proof.
  unfold parse_int, int_or_first_row, error, info, mbind, M_bind, mret, M_ret.
  destruct (int s); simpl; [by rewrite state_log_nil | done].
Qed.

Lemma extend_range_acc (acc : list Z) (start stop : Z) :
  extend_range acc start stop =
    match extend_range [] start stop with
    | Ok l => Ok (acc ++ l)
    | Raise e => Raise e
    end.
Proof. unfold extend_range. by destruct (decide _). Qed.

(** One pass of the loop leaves the dataframe, logs a line for each number
    refused, and adds the indexes of the piece or raises the exception of
    line 458. *)
Lemma parse_row_range_view (acc : list Z) (r : text) (st : state) :
  parse_row_range int range_str n_rows acc r st =
    (match piece_indexes int n_rows r with
     | Ok l => Ok (acc ++ l)
     | Raise e => Raise e
     end,
     {| data := data st;
        log := log st ++ ((fun _ => invalid_line range_str)
                            <$> piece_refused int r) |}).
Proof.
  unfold parse_row_range, piece_indexes, piece_refused.
  destruct (bool_decide (colon ∈ r)).
  - destruct (str_split colon r) as [|p0 [|p1 ps]];
      try (unfold mret, M_ret; by rewrite app_nil_r, state_log_nil).
    unfold mbind, M_bind, mret, M_ret, lift.
    rewrite <- extend_range_acc.
    destruct (bool_decide (length p0 = 0)), (bool_decide (length p1 = 0));
      rewrite ?parse_int_view; simpl; rewrite ?parse_int_view; simpl.
    + by rewrite state_log_nil.
    + by destruct (int p1).
    + destruct (int p0); simpl; by rewrite ?app_nil_r.
    + destruct (int p0), (int p1); simpl;
        by rewrite <- ?app_assoc, ?app_nil_r.
  - destruct (bool_decide (r <> [])).
    + unfold mbind, M_bind, mret, M_ret. rewrite parse_int_view.
      by destruct (int r).
    + unfold mret, M_ret. by rewrite app_nil_r, state_log_nil.
Qed.

Lemma parse_pieces_view (pieces : list text) (acc : list Z) (st : state) :
  for_fold pieces acc (parse_row_range int range_str n_rows) st =
    (match pieces_indexes int n_rows pieces with
     | Ok l => Ok (acc ++ l)
     | Raise e => Raise e
     end,
     {| data := data st;
        log := log st ++ ((fun _ => invalid_line range_str)
                            <$> pieces_refused int n_rows pieces) |}).
Proof.
  revert acc st. induction pieces as [|r rs IH]; intros acc st.
  - simpl. unfold mret, M_ret. by rewrite app_nil_r, state_log_nil.
  - simpl. unfold mbind, M_bind. rewrite parse_row_range_view.
    destruct (piece_indexes int n_rows r) as [l|e].
    + rewrite IH. simpl. rewrite fmap_app.
      destruct (pieces_indexes int n_rows rs); simpl;
        by rewrite <- !app_assoc.
    + by rewrite app_nil_r.
Qed.

Lemma parse_row_ranges_view (st : state) :
  _parse_row_ranges int range_str n_rows st =
    (pieces_indexes int n_rows (str_split comma range_str),
     {| data := data st;
        log := log st ++ ((fun _ => invalid_line range_str)
                            <$> pieces_refused int n_rows
                                  (str_split comma range_str)) |}).
Proof.
  unfold _parse_row_ranges. rewrite parse_pieces_view.
  by destruct (pieces_indexes int n_rows (str_split comma range_str)).
Qed.

Lemma pieces_indexes_app (xs ys : list text) :
  pieces_indexes int n_rows (xs ++ ys) =
    match pieces_indexes int n_rows xs with
    | Ok la =>
        match pieces_indexes int n_rows ys with
        | Ok lb => Ok (la ++ lb)
        | Raise e => Raise e
        end
    | Raise e => Raise e
    end.
Proof.
  induction xs as [|r rs IH]; simpl.
  - by destruct (pieces_indexes int n_rows ys).
  - destruct (piece_indexes int n_rows r) as [l|e]; [|done]. rewrite IH.
    destruct (pieces_indexes int n_rows rs) as [la|e]; [|done].
    destruct (pieces_indexes int n_rows ys) as [lb|e]; [|done].
    by rewrite app_assoc.
Qed.

(** The only exception of a piece is the [OverflowError] of line 458. *)
Lemma piece_indexes_raise (r : text) (e : exn) :
  piece_indexes int n_rows r = Raise e -> e = OverflowError.
Proof.
  unfold piece_indexes, extend_range.
  destruct (bool_decide (colon ∈ r)).
  - destruct (str_split colon r) as [|p0 [|p1 ps]]; try done.
    destruct (decide _); [by intros [= <-] | done].
  - by destruct (bool_decide (r <> [])).
Qed.

Lemma pieces_indexes_raise (pieces : list text) (e : exn) :
  pieces_indexes int n_rows pieces = Raise e -> e = OverflowError.
Proof.
  induction pieces as [|r rs IH]; [done|]. simpl.
  destruct (piece_indexes int n_rows r) as [l|e'] eqn:E.
  - destruct (pieces_indexes int n_rows rs) as [l'|e']; [done|].
    intros [= <-]. by apply IH.
  - intros [= <-]. by apply piece_indexes_raise in E.
Qed.

End RowRangeFacts.

Lemma piece_refused_none (int : text -> option Z) (r p : text) :
  p ∈ piece_refused int r -> int p = None.
Proof.
  assert (forall s, p ∈ (if int s is Some _ then [] else [s]) -> int p = None)
    as Hone.
  { intros s. destruct (int s) eqn:E; [by intros ?%elem_of_nil|].
    by intros ->%list_elem_of_singleton. }
  unfold piece_refused. destruct (bool_decide (colon ∈ r)).
  - destruct (str_split colon r) as [|p0 [|p1 ps]];
      try by intros ?%elem_of_nil.
    intros [Hp|Hp]%elem_of_app.
    + destruct (bool_decide (length p0 = 0)); [by apply elem_of_nil in Hp|].
      by apply (Hone p0).
    + destruct (bool_decide (length p1 = 0)); [by apply elem_of_nil in Hp|].
      by apply (Hone p1).
  - destruct (bool_decide (r <> [])); [apply Hone | by intros ?%elem_of_nil].
Qed.

(** A string with one colon and no comma is one piece of two sides. *)
Lemma interval_pieces (p0 p1 : text) :
  comma ∉ p0 -> comma ∉ p1 -> colon ∉ p0 -> colon ∉ p1 ->
  str_split comma (p0 ++ colon :: p1) = [p0 ++ colon :: p1] /\
  str_split colon (p0 ++ colon :: p1) = [p0; p1] /\
  colon ∈ p0 ++ colon :: p1.
Proof.
  intros Hc0 Hc1 Hk0 Hk1. split; [|split].
  - apply str_split_absent. intros [?|Hin]%elem_of_app; [done|].
    apply elem_of_cons in Hin as [?|?]; done.
  - by rewrite str_split_app, !str_split_absent.
  - apply elem_of_app. right. apply list_elem_of_here.
Qed.

(** The run on one interval [p0:p1], whatever [int] says of its sides. *)
Lemma parse_interval_view (int : text -> option Z) (p0 p1 : text) (n : Z)
    (st : state) :
  comma ∉ p0 -> comma ∉ p1 -> colon ∉ p0 -> colon ∉ p1 ->
  _parse_row_ranges int (p0 ++ colon :: p1) n st =
    (extend_range []
       (if decide (p0 = []) then 0%Z else (int_or_first_row int p0 - 2)%Z)
       (if decide (p1 = []) then n else (int_or_first_row int p1 - 1)%Z),
     {| data := data st;
        log := log st ++
          ((fun _ => invalid_line (p0 ++ colon :: p1)) <$>
             ((if decide (p0 = []) then []
               else if int p0 is Some _ then [] else [p0]) ++
              (if decide (p1 = []) then []
               else if int p1 is Some _ then [] else [p1]))) |}).
Proof.
  intros Hc0 Hc1 Hk0 Hk1.
  destruct (interval_pieces p0 p1 Hc0 Hc1 Hk0 Hk1) as (Hcomma & Hcolon & Hin).
  rewrite parse_row_ranges_view, Hcomma. simpl.
  unfold piece_indexes, piece_refused.
  rewrite bool_decide_eq_true_2, Hcolon by done.
  unfold GSHEET_FIRST_ROW.
  assert (forall p : text, bool_decide (length p = 0)
                           = bool_decide (p = [])) as Hlen.
  { intros [|c p]; done. }
  rewrite !Hlen, !bool_decide_decide.
  destruct (decide (p0 = [])) as [E0|E0], (decide (p1 = [])) as [E1|E1];
    simpl;
    replace (int_or_first_row int p1 - 2 + 1)%Z
      with (int_or_first_row int p1 - 1)%Z by lia;
    match goal with
    | |- context [extend_range [] ?x ?y] =>
        destruct (extend_range [] x y) as [l|e]
    end; by rewrite ?app_nil_r.
Qed.

(** [int_or_first_row] on a number that [int] reads. *)
Lemma int_or_first_row_some (int : text -> option Z) (p : text) (a : Z) :
  int p = Some a -> int_or_first_row int p = a.
Proof. unfold int_or_first_row. by intros ->. Qed.

(** [int_or_first_row] on a number that [int] refuses. *)
Lemma int_or_first_row_none (int : text -> option Z) (p : text) :
  int p = None -> int_or_first_row int p = 2%Z.
Proof. unfold int_or_first_row. by intros ->. Qed.

(** X3. [_parse_row_ranges] reads the pieces between commas one by one: the
    indexes of [a,b] are those of [a] followed by those of [b], an exception
    of [a] or else of [b] is the exception of [a,b], and the empty string
    gives no index. *)
Theorem parse_row_ranges_comma (int : text -> option Z) (a b : text) (n : Z)
    (st : state) :
  (_parse_row_ranges int (a ++ comma :: b) n st).1 =
    match (_parse_row_ranges int a n st).1 with
    | Ok la =>
        match (_parse_row_ranges int b n st).1 with
        | Ok lb => Ok (la ++ lb)
        | Raise e => Raise e
        end
    | Raise e => Raise e
    end /\
  (_parse_row_ranges int [] n st).1 = Ok [].
Proof.
  rewrite !parse_row_ranges_view. simpl.
  by rewrite str_split_app, pieces_indexes_app.
Qed.

(** X4. A piece [p0:p1] stands for the rows of the sheet from number [a] to
    number [b], both included, as the indexes from [a - 2] to [b - 2]; a side
    left empty stands for the first row, index 0, or for the last one, index
    [n_rows - 1]. Nothing is logged. Where the indexes are more than
    [sys.maxsize], line 458 raises [OverflowError]. *)
Theorem parse_row_ranges_interval (int : text -> option Z) (p0 p1 : text)
    (a b n : Z) (st : state) :
  comma ∉ p0 -> comma ∉ p1 -> colon ∉ p0 -> colon ∉ p1 ->
  (p0 <> [] -> int p0 = Some a) ->
  (p1 <> [] -> int p1 = Some b) ->
  let start := if decide (p0 = []) then 0%Z else (a - 2)%Z in
  let stop := if decide (p1 = []) then n else (b - 1)%Z in
  ((stop - start <= sys_maxsize)%Z ->
   exists rows,
     _parse_row_ranges int (p0 ++ colon :: p1) n st = (Ok rows, st) /\
     rows = seqZ start (stop - start) /\
     forall k, k ∈ rows <-> (start <= k < stop)%Z) /\
  ((sys_maxsize < stop - start)%Z ->
   _parse_row_ranges int (p0 ++ colon :: p1) n st
   = (Raise OverflowError, st)).
Proof.
  intros Hc0 Hc1 Hk0 Hk1 Ha Hb start stop.
  assert (_parse_row_ranges int (p0 ++ colon :: p1) n st
          = (extend_range [] start stop, st)) as Hrun.
  { rewrite parse_interval_view by done. subst start stop.
    destruct (decide (p0 = [])) as [E0|E0], (decide (p1 = [])) as [E1|E1];
      rewrite ?(int_or_first_row_some int p0 a), ?(Ha E0) by auto;
      rewrite ?(int_or_first_row_some int p1 b), ?(Hb E1) by auto;
      simpl; by rewrite state_log_nil. }
  rewrite Hrun. unfold extend_range. split.
  - intros Hle. rewrite decide_False by lia.
    exists (seqZ start (stop - start)). split; [done|]. split; [done|].
    intros k. rewrite elem_of_seqZ. lia.
  - intros Hlt. by rewrite decide_True.
Qed.

(** The rows 2 to 10 of a sheet, all the rows of a sheet of 20, and an
    interval of more rows than [sys.maxsize]. *)
Lemma parse_row_ranges_interval_witness :
  (exists rows,
     _parse_row_ranges ascii_int (str "2" ++ colon :: str "10") 20
       (initial frame_empty) = (Ok rows, initial frame_empty) /\
     rows = seqZ 0 (9 - 0) /\
     forall k, k ∈ rows <-> (0 <= k < 9)%Z) /\
  (exists rows,
     _parse_row_ranges ascii_int ([] ++ colon :: []) 20
       (initial frame_empty) = (Ok rows, initial frame_empty) /\
     rows = seqZ 0 (20 - 0) /\
     forall k, k ∈ rows <-> (0 <= k < 20)%Z) /\
  _parse_row_ranges ascii_int
    (str "1" ++ colon :: str "99999999999999999999") 20
    (initial frame_empty) = (Raise OverflowError, initial frame_empty).
Proof.
  split; [|split].
  - apply (parse_row_ranges_interval ascii_int (str "2") (str "10") 2 10 20
             (initial frame_empty));
      try (vm_compute; intros Hin; repeat (apply elem_of_cons in Hin
             as [Hin|Hin]; [discriminate Hin|]); by apply elem_of_nil in Hin);
      try (intros _; vm_compute; reflexivity).
    vm_compute. discriminate.
  - apply (parse_row_ranges_interval ascii_int [] [] 0 0 20
             (initial frame_empty));
      try (by intros ?%elem_of_nil); try (intros Hne; by destruct Hne).
    vm_compute. discriminate.
  - apply (parse_row_ranges_interval ascii_int (str "1")
             (str "99999999999999999999") 1 99999999999999999999 20
             (initial frame_empty));
      try (vm_compute; intros Hin; repeat (apply elem_of_cons in Hin
             as [Hin|Hin]; [discriminate Hin|]); by apply elem_of_nil in Hin);
      try (intros _; vm_compute; reflexivity).
    vm_compute. reflexivity.
Defined.

(** X5. [_parse_row_ranges] checks no bound: a piece that is one number [k]
    stands for the index [k - 2] whatever the number of rows, and
    [check_citations] on the indexes of such a piece raises [KeyError] when
    [k - 2] is no label of the dataframe. *)
Theorem parse_row_ranges_unchecked `{CitationChecker}
    (int : text -> option Z) (self : Scientist) (o : text) (ins : list text)
    (r : text) (k n : Z) (st : state) :
  comma ∉ r -> colon ∉ r -> r <> [] -> int r = Some k ->
  _parse_row_ranges int r n st = (Ok [(k - 2)%Z], st) /\
  ((k - 2)%Z ∉ df_index (data st) ->
   ((_parse_row_ranges int r n ≫= check_citations self o ins) st).1
   = Raise KeyError).
Proof.
  intros Hcomma Hcolon Hr Hint.
  assert (_parse_row_ranges int r n st = (Ok [(k - 2)%Z], st)) as Hparse.
  { rewrite parse_row_ranges_view, str_split_absent by done. simpl.
    unfold piece_indexes, piece_refused.
    rewrite bool_decide_eq_false_2, bool_decide_eq_true_2 by done.
    unfold int_or_first_row. rewrite Hint. simpl.
    by rewrite state_log_nil. }
  split; [done|]. intros Hk.
  unfold mbind, M_bind. rewrite Hparse.
  destruct (check_citations_missing_label self o ins [] [] (k - 2) st Hk)
    as [_ Hkey].
  destruct (check_citations self o ins [] st) as [[[]|e] st0] eqn:E.
  - by destruct (Hkey st0 eq_refl) as [? _].
  - destruct (check_citations_view self o ins [] st) as [H1 _].
    by rewrite E in H1.
Qed.

(** The header row of a sheet, number 1, is the index -1. *)
Lemma parse_row_ranges_unchecked_witness :
  _parse_row_ranges ascii_int (str "1") 1 (initial frame_empty)
    = (Ok [(1 - 2)%Z], initial frame_empty) /\
  ((_parse_row_ranges ascii_int (str "1") 1
      ≫= check_citations (H := citation_checker_spec) default_scientist
           ANSWER [SOURCE]) (initial frame_empty)).1 = Raise KeyError.
Proof.
  destruct (parse_row_ranges_unchecked (H := citation_checker_spec) ascii_int
              default_scientist ANSWER [SOURCE] (str "1") 1 1
              (initial frame_empty)) as [Hparse Hkey];
    try (vm_compute; intros Hin; repeat (apply elem_of_cons in Hin
           as [Hin|Hin]; [discriminate Hin|]); by apply elem_of_nil in Hin).
  - done.
  - reflexivity.
  - split; [exact Hparse|]. apply Hkey. vm_compute. intros Hin.
    apply list_elem_of_singleton in Hin. discriminate Hin.
Defined.

Lemma pieces_refused_none (int : text -> option Z) (n : Z)
    (pieces : list text) :
  Forall (fun p => int p = None) (pieces_refused int n pieces).
Proof.
  induction pieces as [|r rs IH]; simpl; [by constructor|].
  apply Forall_app. split.
  - apply Forall_forall. intros p Hp. by apply piece_refused_none in Hp.
  - destruct (piece_indexes int n r); [done | by constructor].
Qed.

(** X6. On every string [_parse_row_ranges] leaves the dataframe and raises
    nothing but the [OverflowError] of line 458: it answers the indexes of
    the pieces between the commas, in order, and logs one line [Invalid row
    range: ...] with the whole string for each number that [int] refuses,
    nothing else. A refused number is read as the first row below the header,
    number 2: a piece that is one refused number stands for the index 0, and
    a refused side of an interval [p0:p1] for the index 0 on the left and for
    the index 1, excluded, on the right. *)
Theorem parse_row_ranges_refused (int : text -> option Z) (s : text) (n : Z)
    (st : state) :
  let line := str "Invalid row range: " ++ s in
  let refused := pieces_refused int n (str_split comma s) in
  _parse_row_ranges int s n st =
    (pieces_indexes int n (str_split comma s),
     {| data := data st; log := log st ++ replicate (length refused) line |})
  /\ Forall (fun p => int p = None) refused
  /\ (forall e, (_parse_row_ranges int s n st).1 = Raise e ->
      e = OverflowError)
  /\ (comma ∉ s -> colon ∉ s -> s <> [] -> int s = None ->
      _parse_row_ranges int s n st =
        (Ok [0%Z], {| data := data st; log := log st ++ [line] |}))
  /\ (forall p0 p1 : text,
        s = p0 ++ colon :: p1 ->
        comma ∉ p0 -> comma ∉ p1 -> colon ∉ p0 -> colon ∉ p1 ->
        let start :=
          if decide (p0 = []) then 0%Z else (default 2%Z (int p0) - 2)%Z in
        let stop :=
          if decide (p1 = []) then n else (default 2%Z (int p1) - 1)%Z in
        let lines (p : text) :=
          if decide (p = []) then []
          else if int p is Some _ then [] else [line] in
        _parse_row_ranges int s n st =
          (if decide (sys_maxsize < stop - start)%Z then Raise OverflowError
           else Ok (seqZ start (stop - start)),
           {| data := data st; log := log st ++ lines p0 ++ lines p1 |})).
Proof.
  intros line refused.
  assert (forall l : list text,
            (fun _ => invalid_line s) <$> l = replicate (length l) line)
    as Hlines.
  { induction l as [|p l IH]; [done|]. simpl. by rewrite <- IH. }
  split; [|split; [|split; [|split]]].
  - by rewrite parse_row_ranges_view, Hlines.
  - apply pieces_refused_none.
  - intros e. rewrite parse_row_ranges_view. simpl.
    apply pieces_indexes_raise.
  - intros Hcomma Hcolon Hs Hint.
    rewrite parse_row_ranges_view, str_split_absent by done. simpl.
    unfold piece_indexes, piece_refused.
    rewrite bool_decide_eq_false_2, bool_decide_eq_true_2 by done.
    unfold int_or_first_row. by rewrite Hint.
  - intros p0 p1 -> Hc0 Hc1 Hk0 Hk1 start stop lines.
    rewrite parse_interval_view by done.
    unfold int_or_first_row, GSHEET_FIRST_ROW, extend_range, py_range.
    fold start stop. f_equal. f_equal. f_equal.
    rewrite fmap_app. subst lines. simpl.
    by destruct (decide (p0 = [])), (decide (p1 = [])),
      (int p0), (int p1).
Qed.

(** A piece that is no number, and an interval of two such pieces. *)
Lemma parse_row_ranges_refused_witness :
  _parse_row_ranges ascii_int (str "x") 5 (initial frame_empty) =
    (Ok [0%Z],
     {| data := frame_empty; log := [str "Invalid row range: x"] |}) /\
  _parse_row_ranges ascii_int (str "x:y") 5 (initial frame_empty) =
    (Ok [0%Z],
     {| data := frame_empty;
        log := [str "Invalid row range: x:y";
                str "Invalid row range: x:y"] |}).
Proof.
  split.
  - destruct (parse_row_ranges_refused ascii_int (str "x") 5
                (initial frame_empty)) as (_ & _ & _ & Hone & _).
    apply Hone.
    + vm_compute. intros Hin. apply list_elem_of_singleton in Hin.
      discriminate Hin.
    + vm_compute. intros Hin. apply list_elem_of_singleton in Hin.
      discriminate Hin.
    + discriminate.
    + reflexivity.
  - destruct (parse_row_ranges_refused ascii_int (str "x:y") 5
                (initial frame_empty)) as (_ & _ & _ & _ & Htwo).
    apply (Htwo (str "x") (str "y")).
    + reflexivity.
    + vm_compute. intros Hin. apply list_elem_of_singleton in Hin.
      discriminate Hin.
    + vm_compute. intros Hin. apply list_elem_of_singleton in Hin.
      discriminate Hin.
    + vm_compute. intros Hin. apply list_elem_of_singleton in Hin.
      discriminate Hin.
    + vm_compute. intros Hin. apply list_elem_of_singleton in Hin.
      discriminate Hin.
Defined.

(** ** Rows are verified independently *)

Section Independent.

Context `{CitationChecker}.
Variable self : Scientist.
Variable o : text.
Variable ins : list text.

(** What is written for a row does not depend on the derived column, when the
    derived column is no input field. *)
Lemma row_verified_off (df df' : DataFrame) (r : Z) :
  _verified_field_name o ∉ ins ->
  (forall r c, c <> _verified_field_name o -> loc df' r c = loc df r c) ->
  row_verified self o ins df' r = row_verified self o ins df r.
Proof.
  intros Hnot Hoff. apply row_verified_ext. apply Forall_forall.
  intros f Hf. apply Hoff. intros ->.
  apply elem_of_cons in Hf as [Hf|Hf]; [|done].
  by destruct (verified_field_name_neq o).
Qed.

(** A pass over the rows of a dataframe [df'] that differs from [df] in the
    derived column only raises nothing exactly when every row alone raises
    nothing on [df], and then leaves in the derived cell of each of the rows
    what the row alone gives on [df]. *)
Lemma rows_view_independent (df : DataFrame) (rs : list Z) :
  _verified_field_name o ∉ ins ->
  forall df',
    _verified_field_name o ∈ df_columns df' ->
    (forall r c, c <> _verified_field_name o -> loc df' r c = loc df r c) ->
    ((rows_view self o ins df' rs).1 = Ok tt <->
     Forall (fun r => exists v, row_verified self o ins df r = Ok v) rs) /\
    ((rows_view self o ins df' rs).1 = Ok tt ->
     forall r c,
       loc (rows_view self o ins df' rs).2 r c =
         if decide (c = _verified_field_name o /\ r ∈ rs)
         then row_verified self o ins df r
         else loc df' r c).
Proof.
  intros Hnot. induction rs as [|r0 rs IH]; intros df' Hvf Hoff.
  - simpl. split; [done|]. intros _ r c.
    rewrite decide_False; [done|]. by intros [_ ?%elem_of_nil].
  - simpl. rewrite (row_verified_off df df' r0 Hnot Hoff).
    destruct (row_verified self o ins df r0) as [v|e] eqn:E.
    + assert (r0 ∈ df_index df') as Hin.
      { rewrite <- (row_verified_off df df' r0 Hnot Hoff) in E.
        by apply row_verified_ok_inv in E as [? _]. }
      destruct (IH (loc_set df' r0 (_verified_field_name o) v)) as [Hiff Hl].
      { by rewrite loc_set_columns. }
      { intros r c Hc. rewrite loc_loc_set by done.
        rewrite decide_False by (by intros [_ ?]). by apply Hoff. }
      split.
      * rewrite Hiff. split; [intros Hall; constructor; eauto|].
        by intros [_ Hall]%Forall_cons_1.
      * intros Hok r c. rewrite (Hl Hok), loc_loc_set by done.
        destruct (decide (c = _verified_field_name o /\ r ∈ rs))
          as [[-> Hr]|Hn].
        -- rewrite decide_True; [done|]. split; [done|].
           by apply list_elem_of_further.
        -- destruct (decide (r = r0 /\ c = _verified_field_name o))
             as [[-> ->]|Hn0].
           ++ rewrite decide_True; [done|]. split; [done|].
              apply list_elem_of_here.
           ++ rewrite decide_False; [done|]. intros [-> Hr].
              apply elem_of_cons in Hr as [->|Hr]; [by apply Hn0|].
              by apply Hn.
    + split; [|done]. split; [done|].
      intros [[v Hv] _]%Forall_cons_1. congruence.
Qed.

Lemma row_verified_texts (df : DataFrame) (t : RowTexts) :
  holds_texts o ins df t ->
  row_verified self o ins df (row_label t)
  = Ok (VStr (verified_text self (reference_text (row_inputs t))
                (row_citations t) (row_output t))).
Proof.
  intros (Hout & Hcits & Hins). unfold row_verified.
  by rewrite Hout, Hcits, Hins, str_join_strings, verify_value_str.
Qed.

Lemma loc_ensure_column_off (df : DataFrame) (r : Z) (c : text) :
  c <> _verified_field_name o -> loc (ensure_column o df) r c = loc df r c.
Proof.
  intros Hc. rewrite loc_ensure_column.
  rewrite decide_False; [done|]. by intros [? _].
Qed.

(** The whole run, when the derived column is no input field. *)
Lemma check_citations_independent (rows : list Z) (st : state) :
  _verified_field_name o ∉ ins ->
  ((check_citations self o ins rows st).1 = Ok tt <->
   Forall (fun r => exists v, row_verified self o ins (data st) r = Ok v)
     rows) /\
  ((check_citations self o ins rows st).1 = Ok tt ->
   forall r c,
     loc (data (check_citations self o ins rows st).2) r c =
       if decide (c = _verified_field_name o /\ r ∈ rows)
       then row_verified self o ins (data st) r
       else loc (ensure_column o (data st)) r c).
Proof.
  intros Hnot.
  destruct (check_citations_view self o ins rows st) as [-> ->].
  apply rows_view_independent; [done | apply ensure_column_has |].
  intros r c. apply loc_ensure_column_off.
Qed.

End Independent.

(** X7. When the derived column is no input field, and every given row holds
    a string in the output field and strings in the input fields of the
    dataframe as it is before the run, [check_citations] raises nothing and
    leaves in the derived cell of every given row the verified text of the
    row's own output and input texts: no row's result depends on another
    row. *)
Theorem check_citations_batch `{CitationChecker} (self : Scientist)
    (o : text) (ins : list text) (texts : list RowTexts) (st : state) :
  _verified_field_name o ∉ ins ->
  Forall (holds_texts o ins (data st)) texts ->
  exists st1,
    check_citations self o ins (row_label <$> texts) st = (Ok tt, st1) /\
    Forall (fun t =>
              loc (data st1) (row_label t) (_verified_field_name o)
              = Ok (VStr (verified_text self (reference_text (row_inputs t))
                            (row_citations t) (row_output t)))) texts.
Proof.
  intros Hnot Hall.
  destruct (check_citations_independent self o ins (row_label <$> texts) st
              Hnot) as [Hiff Hl].
  assert ((check_citations self o ins (row_label <$> texts) st).1 = Ok tt)
    as Hok.
  { apply Hiff. apply Forall_fmap. eapply Forall_impl; [exact Hall|].
    intros t Ht. simpl. rewrite (row_verified_texts self o ins _ t Ht).
    eauto. }
  exists (check_citations self o ins (row_label <$> texts) st).2. split.
  - destruct (check_citations self o ins (row_label <$> texts) st)
      as [[[]|e] st1]; done.
  - apply Forall_forall. intros t Ht. rewrite (Hl Hok).
    rewrite decide_True.
    + rewrite Forall_forall in Hall. by apply row_verified_texts, Hall.
    + split; [done|]. apply list_elem_of_fmap. by exists t.
Qed.

(** The two rows of [frame_two]. *)
Lemma check_citations_batch_witness :
  let texts :=
    [ {| row_label := 0;
         row_output := str "x " ++ quoted (str "abc") ++ str " y";
         row_citations := [str "abc"];
         row_inputs := [str "abd"] |};
      {| row_label := 1;
         row_output := quoted (str "a");
         row_citations := [str "a"];
         row_inputs := [str "a"] |} ] in
  exists st1,
    check_citations (H := citation_checker_spec) default_scientist ANSWER
      [SOURCE] (row_label <$> texts) (initial frame_two) = (Ok tt, st1) /\
    Forall (fun t =>
              loc (data st1) (row_label t) (_verified_field_name ANSWER)
              = Ok (VStr (verified_text (H := citation_checker_spec)
                            default_scientist
                            (reference_text (row_inputs t))
                            (row_citations t) (row_output t)))) texts.
Proof.
  intros texts.
  apply (check_citations_batch (H := citation_checker_spec) default_scientist
           ANSWER [SOURCE] texts (initial frame_two)).
  - vm_compute. intros Hin. apply list_elem_of_singleton in Hin.
    discriminate Hin.
  - repeat constructor.
Defined.

(** X8. A call of [check_citations] on some rows that raises nothing,
    followed by a call on further rows, does what one call on all the rows
    does: the same outcome, the same dataframe, the same log. *)
Theorem check_citations_in_two_calls `{CitationChecker} (self : Scientist)
    (o : text) (ins : list text) (rows rest : list Z) (st st1 : state) :
  check_citations self o ins rows st = (Ok tt, st1) ->
  check_citations self o ins rest st1
  = check_citations self o ins (rows ++ rest) st.
Proof.
  intros Hrun. rewrite check_citations_app, Hrun.
  destruct (check_citations_snoc self o ins rows 0 st st1 Hrun) as [Hvf _].
  unfold check_citations at 1. unfold mbind, M_bind, get_data, mret, M_ret.
  by rewrite decide_True.
Qed.

(** Row 0 of [frame_two], then row 1. *)
Lemma check_citations_in_two_calls_witness :
  check_citations (H := citation_checker_spec) default_scientist ANSWER
    [SOURCE] [1%Z]
    (check_citations (H := citation_checker_spec) default_scientist ANSWER
       [SOURCE] [0%Z] (initial frame_two)).2
  = check_citations (H := citation_checker_spec) default_scientist ANSWER
      [SOURCE] ([0%Z] ++ [1%Z]) (initial frame_two).
Proof.
  apply (check_citations_in_two_calls (H := citation_checker_spec)
           default_scientist ANSWER [SOURCE] [0%Z] [1%Z] (initial frame_two)).
  vm_compute. reflexivity.
Defined.

(** X9. When the derived column is no input field, the order of the rows
    and their repetition do not matter to a run that raises nothing: a run on
    any list of the same row labels raises nothing and leaves a dataframe
    with the same labels and the same value in every cell. *)
Theorem check_citations_row_order `{CitationChecker} (self : Scientist)
    (o : text) (ins : list text) (rows rows' : list Z) (st st1 : state) :
  _verified_field_name o ∉ ins ->
  (forall r, r ∈ rows <-> r ∈ rows') ->
  check_citations self o ins rows st = (Ok tt, st1) ->
  exists st1',
    check_citations self o ins rows' st = (Ok tt, st1') /\
    df_index (data st1') = df_index (data st1) /\
    df_columns (data st1') = df_columns (data st1) /\
    forall r c, loc (data st1') r c = loc (data st1) r c.
Proof.
  intros Hnot Hsame Hrun.
  destruct (check_citations_independent self o ins rows st Hnot)
    as [Hiff Hl].
  destruct (check_citations_independent self o ins rows' st Hnot)
    as [Hiff' Hl'].
  destruct (check_citations_frame_view self o ins rows st) as (Hi & Hc & _).
  destruct (check_citations_frame_view self o ins rows' st)
    as (Hi' & Hc' & _).
  rewrite Hrun in Hiff, Hl, Hi, Hc. simpl in *.
  assert ((check_citations self o ins rows' st).1 = Ok tt) as Hok'.
  { apply Hiff'. apply Forall_forall. intros r Hr.
    destruct Hiff as [Hall _]. specialize (Hall eq_refl).
    rewrite Forall_forall in Hall. by apply Hall, Hsame. }
  exists (check_citations self o ins rows' st).2. split.
  - destruct (check_citations self o ins rows' st) as [[[]|e] st1']; done.
  - split; [by rewrite Hi, Hi'|]. split; [by rewrite Hc, Hc'|].
    intros r c. rewrite (Hl' Hok'), (Hl eq_refl).
    destruct (decide (c = _verified_field_name o /\ r ∈ rows))
      as [[-> Hr]|Hn].
    + rewrite decide_True; [done|]. split; [done | by apply Hsame].
    + rewrite decide_False; [done|]. intros [-> Hr]. apply Hn.
      split; [done | by apply Hsame].
Qed.

(** The rows of [frame_two] backwards, with row 1 twice. *)
Lemma check_citations_row_order_witness :
  exists st1',
    check_citations (H := citation_checker_spec) default_scientist ANSWER
      [SOURCE] [1%Z; 0%Z; 1%Z] (initial frame_two) = (Ok tt, st1') /\
    forall r c,
      loc (data st1') r c
      = loc (data (check_citations (H := citation_checker_spec)
                     default_scientist ANSWER [SOURCE] [0%Z; 1%Z]
                     (initial frame_two)).2) r c.
Proof.
  destruct (check_citations_row_order (H := citation_checker_spec)
              default_scientist ANSWER [SOURCE] [0%Z; 1%Z] [1%Z; 0%Z; 1%Z]
              (initial frame_two)
              (check_citations (H := citation_checker_spec) default_scientist
                 ANSWER [SOURCE] [0%Z; 1%Z] (initial frame_two)).2)
    as (st1' & Hrun & _ & _ & Hloc).
  - vm_compute. intros Hin. apply list_elem_of_singleton in Hin.
    discriminate Hin.
  - intros r. rewrite !elem_of_cons, !elem_of_nil. tauto.
  - vm_compute. reflexivity.
  - exists st1'. split; [exact Hrun | exact Hloc].
Defined.

Section Alone.

Context `{CitationChecker}.
Variable self : Scientist.
Variable o : text.
Variable ins : list text.

(** The outcome of a run on one row is what the row gives on the dataframe
    as it is before the run, when the derived column is no input field. *)
Lemma check_citations_one_row (r : Z) (st : state) :
  _verified_field_name o ∉ ins ->
  (check_citations self o ins [r] st).1 =
    match row_verified self o ins (data st) r with
    | Ok _ => Ok tt
    | Raise e => Raise e
    end.
Proof.
  intros Hnot. destruct (check_citations_view self o ins [r] st) as [-> _].
  simpl.
  rewrite (row_verified_off self o ins (data st) (ensure_column o (data st)))
    by (done || apply loc_ensure_column_off).
  by destruct (row_verified self o ins (data st) r).
Qed.

(** The rows before the first row that raises alone leave it to raise in the
    run. *)
Lemma check_citations_first_failure (before after : list Z) (r : Z) (e : exn)
    (st : state) :
  _verified_field_name o ∉ ins ->
  Forall (fun r' => exists v, row_verified self o ins (data st) r' = Ok v)
    before ->
  row_verified self o ins (data st) r = Raise e ->
  (check_citations self o ins (before ++ r :: after) st).1 = Raise e.
Proof.
  intros Hnot Hbefore Hr.
  destruct (check_citations_view self o ins (before ++ r :: after) st)
    as [-> _].
  rewrite rows_view_app.
  destruct (rows_view_independent self o ins (data st) before Hnot
              (ensure_column o (data st)) (ensure_column_has o (data st))
              (loc_ensure_column_off o (data st))) as [Hiff Hl].
  destruct Hiff as [_ Hok]. specialize (Hok Hbefore). specialize (Hl Hok).
  destruct (rows_view self o ins (ensure_column o (data st)) before)
    as [[[]|e'] df1]; simpl in *; [|done].
  rewrite (row_verified_off self o ins (data st) df1), Hr; [done..|].
  intros r' c Hc. rewrite Hl. rewrite decide_False by (by intros [? _]).
  by apply loc_ensure_column_off.
Qed.

End Alone.

(** X10. When the derived column is no input field, a run of
    [check_citations] raises nothing exactly when every given row, run alone
    on the same dataframe, raises nothing; and when the rows before a row
    raise nothing alone and the row alone raises an exception, the run raises
    that exception. *)
Theorem check_citations_raises_alone `{CitationChecker} (self : Scientist)
    (o : text) (ins : list text) (st : state) :
  _verified_field_name o ∉ ins ->
  (forall rows,
     (check_citations self o ins rows st).1 = Ok tt <->
     Forall (fun r => (check_citations self o ins [r] st).1 = Ok tt) rows) /\
  (forall before r after e,
     Forall (fun r' => (check_citations self o ins [r'] st).1 = Ok tt)
       before ->
     (check_citations self o ins [r] st).1 = Raise e ->
     (check_citations self o ins (before ++ r :: after) st).1 = Raise e).
Proof.
  intros Hnot.
  assert (forall r,
            (check_citations self o ins [r] st).1 = Ok tt <->
            exists v, row_verified self o ins (data st) r = Ok v) as Hone.
  { intros r. rewrite check_citations_one_row by done.
    destruct (row_verified self o ins (data st) r) as [v|e].
    - split; eauto.
    - split; [done | by intros [v ?]]. }
  split.
  - intros rows.
    destruct (check_citations_independent self o ins rows st Hnot)
      as [-> _].
    rewrite !Forall_forall. split; intros Hall r Hr; by apply Hone, Hall.
  - intros before r after e Hbefore Hr.
    apply check_citations_first_failure; [done| |].
    + eapply Forall_impl; [exact Hbefore|]. intros r' Hr'.
      by apply (proj1 (Hone r')).
    + rewrite check_citations_one_row in Hr by done.
      destruct (row_verified self o ins (data st) r); congruence.
Qed.

(** Row 1 of [frame_nan] alone raises nothing; row 0 alone raises
    [TypeError], and so does the run on row 1, row 0, row 1. *)
Lemma check_citations_raises_alone_witness :
  ((check_citations (H := citation_checker_spec) default_scientist ANSWER
      [SOURCE] [1%Z; 1%Z] (initial frame_nan)).1 = Ok tt) /\
  (check_citations (H := citation_checker_spec) default_scientist ANSWER
     [SOURCE] ([1%Z] ++ 0%Z :: [1%Z]) (initial frame_nan)).1 = Raise TypeError.
Proof.
  destruct (check_citations_raises_alone (H := citation_checker_spec)
              default_scientist ANSWER [SOURCE] (initial frame_nan))
    as [Hiff Hfirst].
  - vm_compute. intros Hin. apply list_elem_of_singleton in Hin.
    discriminate Hin.
  - split.
    + apply Hiff. repeat constructor.
    + apply Hfirst; [repeat constructor | vm_compute; reflexivity].
Defined.

(** X11. A run of [check_citations] on a dataframe without the output field
    raises [KeyError] at the first row, and by then the dataframe has the
    derived column of lines 569-570: nothing else of it has changed. *)
Theorem check_citations_missing_output_field `{CitationChecker}
    (self : Scientist) (o : text) (ins : list text) (r : Z) (rest : list Z)
    (st : state) :
  o ∉ df_columns (data st) ->
  (check_citations self o ins (r :: rest) st).1 = Raise KeyError /\
  data (check_citations self o ins (r :: rest) st).2
  = ensure_column o (data st) /\
  _verified_field_name o
    ∈ df_columns (data (check_citations self o ins (r :: rest) st).2).
Proof.
  intros Ho.
  destruct (check_citations_view self o ins (r :: rest) st) as [-> ->].
  assert (row_verified self o ins (ensure_column o (data st)) r
          = Raise KeyError) as Hrow.
  { unfold row_verified, loc.
    destruct (decide (r ∈ df_index (ensure_column o (data st)))); [|done].
    rewrite decide_False; [done|]. rewrite ensure_column_columns.
    destruct (decide (_ ∈ df_columns (data st))); [done|].
    intros [?|Hv%list_elem_of_singleton]%elem_of_app; [done|].
    by destruct (verified_field_name_neq o). }
  simpl. rewrite Hrow. simpl.
  split; [done|]. split; [done | apply ensure_column_has].
Qed.

(** A run on [frame_empty] for a column it does not have. *)
Lemma check_citations_missing_output_field_witness :
  (check_citations (H := citation_checker_spec) default_scientist
     (str "summary") [SOURCE] (0%Z :: []) (initial frame_empty)).1
  = Raise KeyError /\
  str "summary_verified"
    ∈ df_columns
        (data (check_citations (H := citation_checker_spec) default_scientist
                 (str "summary") [SOURCE] (0%Z :: [])
                 (initial frame_empty)).2).
Proof.
  destruct (check_citations_missing_output_field
              (H := citation_checker_spec) default_scientist (str "summary")
              [SOURCE] 0 [] (initial frame_empty)) as (Hkey & _ & Hcol).
  - vm_compute. intros Hin.
    repeat (apply elem_of_cons in Hin as [Hin|Hin]; [discriminate Hin|]).
    by apply elem_of_nil in Hin.
  - split; [exact Hkey | exact Hcol].
Defined.
